(** * Session manager, event fanout and streaming output parser

    A shallow embedding of
      - [backend/src/session.ts]   (class [SessionManager]),
      - the backend entry point    (WebSocket fanout over [sessionConnections]),
      - [frontend/src/stores/sessions.ts] ([createMessage], [parseClaudeOutput],
        the message actions of the store),
      - [frontend/src/hooks/useSession.ts] ([processData], the [exit] case of
        [ws.onmessage], [sendInput]),
    followed by the properties established about them.

    Conventions.  A JavaScript string is the list of its UTF-16 code units.
    Regular expressions are kept as syntax and run by one backtracking matcher
    that follows the priority order of the ECMAScript matcher (greedy
    quantifiers, leftmost alternative first).  [Date] values are never read by
    the modelled code and are left out of the records. *)

From Stdlib Require Import NArith ZArith List Ascii String Bool Lia.
From stdpp Require Import base option list gmap pretty.

Local Open Scope N_scope.

(* ===================================================================== *)
(** * JavaScript strings and regular expressions                          *)
(* ===================================================================== *)

Module JS.

(** A string value: its sequence of UTF-16 code units. *)
Abbreviation jsstring := (list N).

(** An ASCII literal as a JavaScript string. *)
Definition js (s : string) : jsstring :=
  map N_of_ascii (list_ascii_of_string s).

(** [String.prototype.concat] / the [+] operator. *)
Definition concat (a b : jsstring) : jsstring := a ++ b.

Definition in_range (lo hi c : N) : bool := (lo <=? c) && (c <=? hi).

(** WhiteSpace and LineTerminator code points: the set removed by [trim]
    and matched by [\s]. *)
Definition is_space (c : N) : bool :=
  in_range 9 13 c || (c =? 32) || (c =? 160) || (c =? 5760)
  || in_range 8192 8202 c || (c =? 8232) || (c =? 8233)
  || (c =? 8239) || (c =? 8287) || (c =? 12288) || (c =? 65279).

(** LineTerminator: what [.] refuses. *)
Definition is_line_terminator (c : N) : bool :=
  (c =? 10) || (c =? 13) || (c =? 8232) || (c =? 8233).

Definition is_digit (c : N) : bool := in_range 48 57 c.
Definition is_upper (c : N) : bool := in_range 65 90 c.
Definition is_lower (c : N) : bool := in_range 97 122 c.
Definition is_alpha (c : N) : bool := is_lower c || is_upper c.
(** [\w] *)
Definition is_word (c : N) : bool := is_alpha c || is_digit c || (c =? 95).

(** Canonicalize of the [i] flag (no [u] flag).  A code unit above 127 is
    never mapped into ASCII, and every pattern below is ASCII apart from
    caseless symbols, so only the ASCII letters are folded. *)
Definition canonicalize (c : N) : N := if is_lower c then c - 32 else c.

Fixpoint trimStart (s : jsstring) : jsstring :=
  match s with
  | c :: t => if is_space c then trimStart t else s
  | [] => []
  end.

Definition trimEnd (s : jsstring) : jsstring := rev (trimStart (rev s)).

Definition trim (s : jsstring) : jsstring := trimEnd (trimStart s).

(** [s.split('\n')] *)
Fixpoint split_nl (s : jsstring) : list jsstring :=
  match s with
  | [] => [[]]
  | c :: t =>
      if c =? 10 then [] :: split_nl t
      else match split_nl t with
           | l :: ls => (c :: l) :: ls
           | [] => [[c]]
           end
  end.

Definition str_eqb (a b : jsstring) : bool := bool_decide (a = b).

(** [s.startsWith(p)] *)
Fixpoint startsWith (s p : jsstring) : bool :=
  match p, s with
  | [], _ => true
  | c :: p', d :: s' => (c =? d) && startsWith s' p'
  | _ :: _, [] => false
  end.

(** [s.includes(p)] *)
Fixpoint includes (s p : jsstring) : bool :=
  startsWith s p ||
  match s with
  | [] => false
  | _ :: s' => includes s' p
  end.

(** [arr.join(sep)] *)
Fixpoint join (sep : jsstring) (l : list jsstring) : jsstring :=
  match l with
  | [] => []
  | [x] => x
  | x :: rest => x ++ sep ++ join sep rest
  end.

(** Truthiness of a string: only the empty string is falsy. *)
Definition truthy (s : jsstring) : bool :=
  match s with [] => false | _ => true end.

(** ** Regular expressions *)

Inductive regex : Type :=
| Empty                      (* the empty pattern *)
| Class (p : N -> bool)      (* one code unit of a class *)
| Cat (r1 r2 : regex)        (* r1 r2 *)
| Or (r1 r2 : regex)         (* r1|r2 *)
| Star (r : regex)           (* r*, greedy *)
| Bol                        (* ^ *)
| Eol                        (* $ *)
| Group (r : regex).         (* ( r ), capture group 1 *)

Declare Scope regex_scope.
Delimit Scope regex_scope with re.
Bind Scope regex_scope with regex.
Infix "+++" := Cat (at level 60, right associativity) : regex_scope.

Definition chr (c : N) : regex := Class (N.eqb c).
Definition chr_i (c : N) : regex :=
  Class (fun x => canonicalize x =? canonicalize c).
Definition plus (r : regex) : regex := Cat r (Star r).
(** a literal, with and without the [i] flag *)
Definition lit (s : string) : regex :=
  fold_right (fun c r => Cat (chr c) r) Empty (js s).
Definition lit_i (s : string) : regex :=
  fold_right (fun c r => Cat (chr_i c) r) Empty (js s).
(** r1|r2|...|rn *)
Definition alt (rs : list regex) : regex :=
  match rs with
  | [] => Class (fun _ => false)
  | r :: rest => fold_left Or rest r
  end.
Definition space : regex := Class is_space.
Definition dot : regex := Class (fun c => negb (is_line_terminator c)).

Section Matcher.
Context {R : Type}.
(** length of the whole input, for [^] *)
Variable total : nat.

(** The iterations of a greedy [r*]: try one more [step] (one match of
    [r]) before giving the text to the continuation.  At most [n]
    iterations are tried, and [n] is the length of the text where the
    star starts, which an iteration always shortens. *)
Fixpoint star_loop
    (step : jsstring -> option jsstring ->
            (jsstring -> option jsstring -> option R) -> option R)
    (k : jsstring -> option jsstring -> option R)
    (n : nat) (s : jsstring) (cap : option jsstring) {struct n} : option R :=
  match n with
  | O => k s cap
  | S n' =>
      match step s cap
              (fun s' cap' =>
                 (* an iteration that consumes nothing is refused *)
                 if (length s' <? length s)%nat
                 then star_loop step k n' s' cap' else None) with
      | Some x => Some x
      | None => k s cap
      end
  end.

(** [run r s cap k]: match [r] at the front of [s], then continue with
    [k] on what is left; the first success in priority order wins. *)
Fixpoint run (r : regex) (s : jsstring) (cap : option jsstring)
    (k : jsstring -> option jsstring -> option R) {struct r} : option R :=
  match r with
  | Empty => k s cap
  | Class p =>
      match s with
      | c :: s' => if p c then k s' cap else None
      | [] => None
      end
  | Cat r1 r2 => run r1 s cap (fun s' cap' => run r2 s' cap' k)
  | Or r1 r2 =>
      match run r1 s cap k with
      | Some x => Some x
      | None => run r2 s cap k
      end
  | Star r' => star_loop (run r') k (length s) s cap
  | Bol => if (length s =? total)%nat then k s cap else None
  | Eol => match s with [] => k s cap | _ :: _ => None end
  | Group r' =>
      run r' s cap
        (fun s' _ => k s' (Some (take (length s - length s')%nat s)))
  end.
End Matcher.

(** The result of a successful match: where it starts, the matched text
    ([m[0]]), capture group 1 ([m[1]]) and the text after the match. *)
Record MatchResult := {
  m_index : nat;
  m_text : jsstring;
  m_group1 : option jsstring;
  m_rest : jsstring
}.

Definition match_here (total : nat) (r : regex) (pre : nat) (s : jsstring)
  : option MatchResult :=
  run total r s None
    (fun s' cap =>
       Some {| m_index := pre;
               m_text := take (length s - length s')%nat s;
               m_group1 := cap;
               m_rest := s' |}).

(** RegExpBuiltinExec without the [g] and [y] flags: the first start
    index at which the pattern matches. *)
Fixpoint search (total : nat) (r : regex) (pre : nat) (s : jsstring)
  : option MatchResult :=
  match match_here total r pre s with
  | Some m => Some m
  | None =>
      match s with
      | [] => None
      | _ :: s' => search total r (S pre) s'
      end
  end.

(** [s.match(r)] for a pattern without the [g] flag *)
Definition exec (r : regex) (s : jsstring) : option MatchResult :=
  search (length s) r 0%nat s.

(** [r.test(s)] *)
Definition test (r : regex) (s : jsstring) : bool :=
  match exec r s with Some _ => true | None => false end.

(** [s.replace(r, '')] for a pattern without the [g] flag *)
Definition replace_first (r : regex) (s : jsstring) : jsstring :=
  match exec r s with
  | Some m => take (m_index m) s ++ m_rest m
  | None => s
  end.

(** [s.replace(r, '')] for a pattern with the [g] flag.  [fuel] bounds the
    number of code units still to scan. *)
Fixpoint replace_all_from (total : nat) (r : regex) (fuel : nat)
    (s : jsstring) : jsstring :=
  match fuel with
  | O => s
  | S fuel' =>
      let copy :=
        match s with
        | [] => []
        | c :: t => c :: replace_all_from total r fuel' t
        end in
      match run total r s None (fun s' _ => Some s') with
      | Some s' =>
          if (length s' <? length s)%nat
          then replace_all_from total r fuel' s'
          else copy
      | None => copy
      end
  end.

Definition replace_all (r : regex) (s : jsstring) : jsstring :=
  replace_all_from (length s) r (S (length s)) s.

End JS.


(* ===================================================================== *)
(** * Frontend: message store and streaming output parser                 *)
(* ===================================================================== *)

Module Frontend.
Import JS.

(** ** [stores/sessions.ts] *)

Inductive Role := user | assistant | system | tool.
Inductive Status := running | stopped | error.
Inductive LogType := stdout | stderr | log_system.

#[global] Instance Role_eq_dec : EqDecision Role.
Proof. solve_decision. Defined.
#[global] Instance Status_eq_dec : EqDecision Status.
Proof. solve_decision. Defined.

(** [Message].  The id [msg_<counter>_<ms>] is represented by its counter,
    which alone makes it unique. *)
Record Message := {
  id : nat;
  role : Role;
  content : jsstring;
  toolName : option jsstring;
  toolInput : option jsstring;
  isStreaming : bool
}.

(** [Partial<Message>] as it is used: an optional tool name, tool input,
    content and streaming flag. *)
Record MessageUpdates := {
  u_content : option jsstring;
  u_toolName : option jsstring;
  u_toolInput : option jsstring;
  u_isStreaming : option bool
}.

Definition no_updates : MessageUpdates :=
  {| u_content := None; u_toolName := None; u_toolInput := None;
     u_isStreaming := None |}.

(** [{ ...msg, ...updates }] *)
Definition spread (msg : Message) (u : MessageUpdates) : Message :=
  {| id := id msg;
     role := role msg;
     content := default (content msg) (u_content u);
     toolName := match u_toolName u with
                 | Some t => Some t | None => toolName msg end;
     toolInput := match u_toolInput u with
                  | Some t => Some t | None => toolInput msg end;
     isStreaming := default (isStreaming msg) (u_isStreaming u) |}.

Record Session := {
  s_name : jsstring;
  s_workingDir : jsstring;
  s_status : Status
}.

Record LogEntry := { l_type : LogType; l_content : jsstring }.

(** The zustand store together with the module variable [messageCounter]. *)
Record Store := {
  sessions : gmap jsstring Session;
  sessionLogs : gmap jsstring (list LogEntry);
  sessionMessages : gmap jsstring (list Message);
  messageCounter : nat
}.

Definition initialStore : Store :=
  {| sessions := ∅; sessionLogs := ∅; sessionMessages := ∅;
     messageCounter := 0 |}.

Definition with_messages (st : Store) (m : gmap jsstring (list Message))
  : Store :=
  {| sessions := sessions st; sessionLogs := sessionLogs st;
     sessionMessages := m; messageCounter := messageCounter st |}.

(** the messages of one session, [get(sessionId) || []] *)
Definition messagesOf (st : Store) (sid : jsstring) : list Message :=
  default [] (sessionMessages st !! sid).

Definition updateSession (sid : jsstring) (status : Status) (st : Store)
  : Store :=
  {| sessions :=
       match sessions st !! sid with
       | Some existing =>
           <[sid := {| s_name := s_name existing;
                       s_workingDir := s_workingDir existing;
                       s_status := status |}]> (sessions st)
       | None => sessions st
       end;
     sessionLogs := sessionLogs st;
     sessionMessages := sessionMessages st;
     messageCounter := messageCounter st |}.

Definition appendLog (sid : jsstring) (log : LogEntry) (st : Store) : Store :=
  {| sessions := sessions st;
     sessionLogs :=
       <[sid := default [] (sessionLogs st !! sid) ++ [log]]> (sessionLogs st);
     sessionMessages := sessionMessages st;
     messageCounter := messageCounter st |}.

Definition setLogs (sid : jsstring) (logs : list LogEntry) (st : Store)
  : Store :=
  {| sessions := sessions st;
     sessionLogs := <[sid := logs]> (sessionLogs st);
     sessionMessages := sessionMessages st;
     messageCounter := messageCounter st |}.

Definition addMessage (sid : jsstring) (message : Message) (st : Store)
  : Store :=
  with_messages st
    (<[sid := messagesOf st sid ++ [message]]> (sessionMessages st)).

Definition updateMessage (sid : jsstring) (messageId : nat)
    (updates : MessageUpdates) (st : Store) : Store :=
  with_messages st
    (<[sid := map (fun msg =>
                     if decide (id msg = messageId)
                     then spread msg updates else msg)
                  (messagesOf st sid)]> (sessionMessages st)).

(** [createMessage(role, content, options)]: the new message and the store
    with the counter advanced by [generateMessageId]. *)
Definition createMessage (r : Role) (c : jsstring) (options : MessageUpdates)
    (st : Store) : Message * Store :=
  let n := S (messageCounter st) in
  (spread {| id := n; role := r; content := c; toolName := None;
             toolInput := None; isStreaming := false |} options,
   {| sessions := sessions st; sessionLogs := sessionLogs st;
      sessionMessages := sessionMessages st; messageCounter := n |}).

Inductive ParsedType := t_user | t_assistant | t_tool | t_system | t_raw | t_skip.

#[global] Instance ParsedType_eq_dec : EqDecision ParsedType.
Proof. solve_decision. Defined.

Record Parsed := {
  p_type : ParsedType;
  p_content : jsstring;
  p_toolName : option jsstring;
  p_toolInput : option jsstring
}.

Definition parsed (t : ParsedType) (c : jsstring) : Parsed :=
  {| p_type := t; p_content := c; p_toolName := None; p_toolInput := None |}.

(** [arr.some(p => p.test(s))] *)
Definition some_test (ps : list regex) (s : jsstring) : bool :=
  existsb (fun p => test p s) ps.

Definition skipPatterns : list regex :=
  [ (* /^[─━═]+$/ *)
    (Bol +++ plus (Class (fun c => (c =? 9472) || (c =? 9473) || (c =? 9552)))
         +++ Eol)%re;
    (* /^\s*⏵/ *)
    (Bol +++ Star space +++ chr 9205)%re;
    (* /bypass permissions/i *)
    lit_i "bypass permissions";
    (* /shift\+tab/i *)
    lit_i "shift+tab";
    (* /MCP server/i *)
    lit_i "MCP server";
    (* /for info$/i *)
    (lit_i "for info" +++ Eol)%re;
    (* /^\[\?/ *)
    (Bol +++ lit "[?")%re;
    (* /^Try Q/ where Q is the double quote, code 34 *)
    (Bol +++ lit "Try " +++ chr 34)%re ].

(** [(Read|Write|Edit|Bash|Grep|Glob|Search|WebFetch|Task)] *)
Definition toolNames : list regex :=
  [lit_i "Read"; lit_i "Write"; lit_i "Edit"; lit_i "Bash"; lit_i "Grep";
   lit_i "Glob"; lit_i "Search"; lit_i "WebFetch"; lit_i "Task"].

Definition toolPatterns : list regex :=
  [ (* /^(Read|...|Task|LS|TodoWrite)\s*[:(]/i *)
    (Bol +++ Group (alt (toolNames ++ [lit_i "LS"; lit_i "TodoWrite"]))
         +++ Star space +++ Class (fun c => (c =? 58) || (c =? 40)))%re;
    (* /^Using tool:\s*(Read|...|Task)/i *)
    (Bol +++ lit_i "Using tool:" +++ Star space +++ Group (alt toolNames))%re;
    (* /^Tool:\s*(Read|...|Task)/i *)
    (Bol +++ lit_i "Tool:" +++ Star space +++ Group (alt toolNames))%re ].

(** [❯] or [>] *)
Definition promptMarker : regex :=
  Class (fun c => (c =? 10095) || (c =? 62)).

(** the first pattern of [toolPatterns] that matches, as the [for] loop
    finds it *)
Fixpoint firstToolMatch (ps : list regex) (data : jsstring)
  : option MatchResult :=
  match ps with
  | [] => None
  | p :: rest =>
      match exec p data with
      | Some m => Some m
      | None => firstToolMatch rest data
      end
  end.

Definition parseClaudeOutput (data : jsstring) : Parsed :=
  let trimmed := trim data in
  if (length trimmed <? 2)%nat then parsed t_skip []
  else if some_test skipPatterns trimmed then parsed t_skip []
  else if test (Bol +++ promptMarker +++ space)%re data
          || startsWith data (js "You:") || startsWith data (js "Human:")
  then
    let content :=
      trim (replace_first
              (alt [ (Bol +++ promptMarker +++ Star space)%re;
                     (Bol +++ lit "You:" +++ Star space)%re;
                     (Bol +++ lit "Human:" +++ Star space)%re ]) data) in
    if truthy content then parsed t_user content else parsed t_skip []
  else if startsWith data (js "Claude:") || startsWith data (js "Assistant:")
  then
    parsed t_assistant
      (replace_first
         (alt [ (Bol +++ lit "Claude:" +++ Star space)%re;
                (Bol +++ lit "Assistant:" +++ Star space)%re ]) data)
  else
    match firstToolMatch toolPatterns data with
    | Some toolMatch =>
        {| p_type := t_tool;
           p_content := data;
           p_toolName := m_group1 toolMatch;
           p_toolInput := Some (drop (length (m_text toolMatch)) data) |}
    | None =>
        if includes data (js "Session started")
           || includes data (js "Process exited")
           || test (Bol +++ lit_i "Error:")%re data
           || includes data (js "Connection")
        then parsed t_system data
        else parsed t_raw data
    end.

(** ** [hooks/useSession.ts] *)

(** State machine for parsing the CLI output.  [currentRole] is only ever
    [null] or ['assistant']. *)
Record OutputParser := {
  currentRole : option Role;
  buffer : jsstring;
  currentMessageId : option nat
}.

Definition emptyParser : OutputParser :=
  {| currentRole := None; buffer := []; currentMessageId := None |}.

(** [parser.currentRole === 'assistant' && parser.currentMessageId]: the id
    of the open accumulation, if one is open.  A generated id is a
    non-empty string, so a non-null [currentMessageId] is truthy. *)
Definition openMessage (parser : OutputParser) : option nat :=
  match currentRole parser, currentMessageId parser with
  | Some assistant, Some mid => Some mid
  | _, _ => None
  end.

Definition streaming (b : bool) : MessageUpdates :=
  {| u_content := None; u_toolName := None; u_toolInput := None;
     u_isStreaming := Some b |}.

(** the six [replace] calls that strip terminal escape codes *)
Definition stripEscapes (data : jsstring) : jsstring :=
  let digits := Star (Class (fun c => is_digit c || (c =? 59))) in
  (* /\x1B\[[0-9;]*[a-zA-Z]/g *)
  let d1 := replace_all (chr 27 +++ chr 91 +++ digits +++ Class is_alpha)%re
              data in
  (* /\x1B\][^\x07]*\x07/g *)
  let d2 := replace_all
              (chr 27 +++ chr 93 +++ Star (Class (fun c => negb (c =? 7)))
                      +++ chr 7)%re d1 in
  (* /\x1B\[\?[0-9;]*[a-zA-Z]/g *)
  let d3 := replace_all
              (chr 27 +++ chr 91 +++ chr 63 +++ digits +++ Class is_alpha)%re
              d2 in
  (* /\x1B[()][AB012]/g *)
  let d4 := replace_all
              (chr 27 +++ Class (fun c => (c =? 40) || (c =? 41))
                      +++ Class (fun c => (c =? 65) || (c =? 66) || (c =? 48)
                                          || (c =? 49) || (c =? 50)))%re d3 in
  (* /\x1B[>=]/g *)
  let d5 := replace_all
              (chr 27 +++ Class (fun c => (c =? 62) || (c =? 61)))%re d4 in
  (* /[\x00-\x08\x0B\x0C\x0E-\x1F]/g *)
  replace_all
    (Class (fun c => in_range 0 8 c || (c =? 11) || (c =? 12)
                     || in_range 14 31 c)) d5.

Definition uiPatterns : list regex :=
  [ (* /^─+$/ *)
    (Bol +++ plus (chr 9472) +++ Eol)%re;
    (* /^[\s]*$/ *)
    (Bol +++ Star space +++ Eol)%re;
    (* /⏵⏵\s*bypass permissions/i *)
    (chr_i 9205 +++ chr_i 9205 +++ Star space
       +++ lit_i "bypass permissions")%re;
    (* /shift\+tab to cycle/i *)
    lit_i "shift+tab to cycle";
    (* /MCP server/i *)
    lit_i "MCP server";
    (* /^\s*\/\w+\s+for\s+info/i *)
    (Bol +++ Star space +++ chr 47 +++ plus (Class is_word) +++ plus space
         +++ lit_i "for" +++ plus space +++ lit_i "info")%re;
    (* /Try Q.*Q/ where Q is the double quote, code 34 *)
    (lit "Try " +++ chr 34 +++ Star dot +++ chr 34)%re;
    (* /^\[.*\]$/ *)
    (Bol +++ chr 91 +++ Star dot +++ chr 93 +++ Eol)%re;
    (* /^\s*\d+\s+tokens/i *)
    (Bol +++ Star space +++ plus (Class is_digit) +++ plus space
         +++ lit_i "tokens")%re ].

(** One turn of the [for (const line of lines)] loop of [processData]. *)
Definition processLine (sid : jsstring) (ps : OutputParser * Store)
    (line : jsstring) : OutputParser * Store :=
  let '(parser, st) := ps in
  let trimmed := trim line in
  if negb (truthy trimmed) then ps
  else if some_test uiPatterns trimmed then ps
  else if (length trimmed <? 3)%nat && negb (test (Class is_alpha) trimmed)
  then ps
  else
    let parsed := parseClaudeOutput trimmed in
    match p_type parsed with
    | t_skip => ps
    | t_user =>
        match openMessage parser with
        | Some mid => (emptyParser, updateMessage sid mid (streaming false) st)
        | None => ps
        end
    | t_tool =>
        let st1 := match openMessage parser with
                   | Some mid => updateMessage sid mid (streaming false) st
                   | None => st
                   end in
        let '(toolMsg, st2) :=
          createMessage tool (p_content parsed)
            {| u_content := None; u_toolName := p_toolName parsed;
               u_toolInput := p_toolInput parsed; u_isStreaming := None |}
            st1 in
        ({| currentRole := None; buffer := buffer parser;
            currentMessageId := None |},
         addMessage sid toolMsg st2)
    | t_system =>
        let '(sysMsg, st1) :=
          createMessage system (p_content parsed) no_updates st in
        (parser, addMessage sid sysMsg st1)
    | t_assistant | t_raw =>
        match openMessage parser with
        | None =>
            let '(assistantMsg, st1) :=
              createMessage assistant line (streaming true) st in
            ({| currentRole := Some assistant; buffer := line;
                currentMessageId := Some (id assistantMsg) |},
             addMessage sid assistantMsg st1)
        | Some mid =>
            let buffer' := buffer parser ++ [10] ++ line in
            ({| currentRole := currentRole parser; buffer := buffer';
                currentMessageId := currentMessageId parser |},
             updateMessage sid mid
               {| u_content := Some buffer'; u_toolName := None;
                  u_toolInput := None; u_isStreaming := Some true |} st)
        end
    end.

(** [processData(sessionId, data)] *)
Definition processData (sid : jsstring) (data : jsstring)
    (ps : OutputParser * Store) : OutputParser * Store :=
  fold_left (processLine sid) (split_nl (stripEscapes data)) ps.

(** Messages of the transport, both directions. *)
Inductive ClientMessage :=
| subscribe (sessionId : jsstring)
| unsubscribe
| input (data : jsstring)
| resize (cols rows : N).

Inductive ServerMessage :=
| logs (entries : list LogEntry)
| data (chunk : jsstring) (dataType : LogType)
| exit (exitCode : Z).

Inductive ReadyState := CONNECTING | OPEN | CLOSING | CLOSED.

#[global] Instance ReadyState_eq_dec : EqDecision ReadyState.
Proof. solve_decision. Defined.

(** the browser socket: its state and what was handed to [send], in order *)
Record WebSocket := { readyState : ReadyState; sent : list ClientMessage }.

Definition send (m : ClientMessage) (ws : WebSocket) : WebSocket :=
  {| readyState := readyState ws; sent := sent ws ++ [m] |}.

(** One mounted [useSession(sessionId)]: its two refs, next to the store. *)
Record Hook := {
  sessionId : option jsstring;
  parserRef : OutputParser;
  wsRef : option WebSocket
}.

(** the effect of a hook mounted with [sessionId]: it returns at once on a
    null or empty id; otherwise parser reset, new socket *)
Definition connect (sessionId0 : option jsstring) : Hook :=
  {| sessionId := sessionId0; parserRef := emptyParser;
     wsRef := match sessionId0 with
              | Some sid =>
                  if truthy sid
                  then Some {| readyState := CONNECTING; sent := [] |}
                  else None
              | None => None
              end |}.

(** [ws.onopen] *)
Definition onopen (h : Hook) : Hook :=
  match sessionId h, wsRef h with
  | Some sid, Some ws =>
      {| sessionId := sessionId h; parserRef := parserRef h;
         wsRef := Some (send (subscribe sid)
                          {| readyState := OPEN; sent := sent ws |}) |}
  | _, _ => h
  end.

(** the text of a number in a template literal *)
Definition numberToString (z : Z) : jsstring := js (pretty z).

(** [ws.onmessage] of the socket opened for session [sid] *)
Definition onmessage (sid : jsstring) (message : ServerMessage)
    (ps : OutputParser * Store) : OutputParser * Store :=
  let '(parser, st) := ps in
  match message with
  | logs entries =>
      fold_left (fun acc log => processData sid (l_content log) acc) entries
        (parser, setLogs sid entries st)
  | data chunk dataType =>
      processData sid chunk
        (parser, appendLog sid {| l_type := dataType; l_content := chunk |} st)
  | exit exitCode =>
      let st1 := updateSession sid stopped st in
      let st2 := match currentMessageId parser with
                 | Some mid => updateMessage sid mid (streaming false) st1
                 | None => st1
                 end in
      let '(msg, st3) :=
        createMessage system
          (js "Process exited with code " ++ numberToString exitCode)
          no_updates st2 in
      (parser, addMessage sid msg st3)
  end.

(** What a callback of the hook calls on the store and on its socket. *)
Inductive Call :=
| call_addMessage (sid : jsstring) (m : Message)
| call_updateMessage (sid : jsstring) (messageId : nat)
    (updates : MessageUpdates)
| call_send (m : ClientMessage).

(** A callback of the hook under way: the refs, the store, and the calls
    made so far on the store and on the socket, the oldest first. *)
Record Run := { r_hook : Hook; r_store : Store; r_calls : list Call }.

(** [createMessage(role, content, options)]: no call on the store, the
    counter apart *)
Definition run_createMessage (r0 : Role) (c : jsstring) (o : MessageUpdates)
    (r : Run) : Message * Run :=
  let '(m, st1) := createMessage r0 c o (r_store r) in
  (m, {| r_hook := r_hook r; r_store := st1; r_calls := r_calls r |}).

(** [addMessage(sessionId, message)] *)
Definition run_addMessage (sid : jsstring) (m : Message) (r : Run) : Run :=
  {| r_hook := r_hook r; r_store := addMessage sid m (r_store r);
     r_calls := r_calls r ++ [call_addMessage sid m] |}.

(** [updateMessage(sessionId, messageId, updates)] *)
Definition run_updateMessage (sid : jsstring) (messageId : nat)
    (updates : MessageUpdates) (r : Run) : Run :=
  {| r_hook := r_hook r;
     r_store := updateMessage sid messageId updates (r_store r);
     r_calls := r_calls r ++ [call_updateMessage sid messageId updates] |}.

(** the three assignments to the fields of [parserRef.current] *)
Definition run_setParser (parser : OutputParser) (r : Run) : Run :=
  {| r_hook := {| sessionId := sessionId (r_hook r); parserRef := parser;
                  wsRef := wsRef (r_hook r) |};
     r_store := r_store r; r_calls := r_calls r |}.

(** [wsRef.current.send(JSON.stringify(m))], called under the test that
    the socket is there *)
Definition run_send (m : ClientMessage) (r : Run) : Run :=
  match wsRef (r_hook r) with
  | Some ws =>
      {| r_hook := {| sessionId := sessionId (r_hook r);
                      parserRef := parserRef (r_hook r);
                      wsRef := Some (send m ws) |};
         r_store := r_store r; r_calls := r_calls r ++ [call_send m] |}
  | None => r
  end.

(** [sendInput(data)], statement by statement *)
Definition sendInput_run (data0 : jsstring) (r : Run) : Run :=
  match wsRef (r_hook r) with
  | Some ws =>
      if decide (readyState ws = OPEN) then
        let r1 :=
          if truthy (trim data0) && negb (str_eqb data0 [3]) then
            let '(userMsg, r2) :=
              run_createMessage user
                (replace_first (chr 10 +++ Eol)%re data0) no_updates r in
            match sessionId (r_hook r2) with
            | Some sid =>
                if truthy sid then
                  let r3 := run_addMessage sid userMsg r2 in
                  match openMessage (parserRef (r_hook r3)) with
                  | Some mid =>
                      run_setParser emptyParser
                        (run_updateMessage sid mid (streaming false) r3)
                  | None => r3
                  end
                else r2
            | None => r2
            end
          else r in
        run_send (input data0) r1
      else r
  | None => r
  end.

(** [sendInput(data)]: the refs and the store it leaves *)
Definition sendInput (data0 : jsstring) (hs : Hook * Store) : Hook * Store :=
  let r := sendInput_run data0
             {| r_hook := fst hs; r_store := snd hs; r_calls := [] |} in
  (r_hook r, r_store r).

(** A line that survives the filters of [processData] and that
    [parseClaudeOutput] classifies as [t]. *)
Definition classified (t : ParsedType) (line : jsstring) : bool :=
  let trimmed := trim line in
  truthy trimmed
  && negb (some_test uiPatterns trimmed)
  && negb ((length trimmed <? 3)%nat && negb (test (Class is_alpha) trimmed))
  && bool_decide (p_type (parseClaudeOutput trimmed) = t).

Definition rawLine (line : jsstring) : bool := classified t_raw line.

(** A line for which the loop of [processData] takes one of its early
    [continue]s: blank, interface chrome, debris, or classified ['skip']. *)
Definition droppedLine (line : jsstring) : bool :=
  let trimmed := trim line in
  negb (truthy trimmed)
  || some_test uiPatterns trimmed
  || ((length trimmed <? 3)%nat && negb (test (Class is_alpha) trimmed))
  || bool_decide (p_type (parseClaudeOutput trimmed) = t_skip).

(** The store holds no message whose id is still to be generated. *)
Definition ids_generated (st : Store) (sid : jsstring) : Prop :=
  Forall (fun m => (id m <= messageCounter st)%nat) (messagesOf st sid).

(** Every stored message carries an id that has already been generated. *)
Definition well_numbered (st : Store) : Prop :=
  forall sid, ids_generated st sid.

(** the assistant message under accumulation *)
Definition open_message (mid : nat) (text : jsstring) : Message :=
  {| id := mid; role := assistant; content := text; toolName := None;
     toolInput := None; isStreaming := true |}.

(** The scenario of the specification: a fresh parser for session [demo]
    is fed the chunks [Hello], then [ world] with a line feed, then the
    tool line. *)
Definition demo : jsstring := js "demo".

Definition demo_scenario : OutputParser * Store :=
  processData demo (js "Bash: ls -la")
    (processData demo (js " world" ++ [10])
       (processData demo (js "Hello") (emptyParser, initialStore))).

(** An accumulation left open by the chunk [Hello]. *)
Definition demo_open : OutputParser * Store :=
  processData demo (js "Hello") (emptyParser, initialStore).


(** ** The other actions of the store *)

(** [addSession(session)], the id being [session.id] *)
Definition addSession (sid : jsstring) (session : Session) (st : Store)
  : Store :=
  {| sessions := <[sid := session]> (sessions st);
     sessionLogs := sessionLogs st;
     sessionMessages := sessionMessages st;
     messageCounter := messageCounter st |}.

(** [appendToMessage(sessionId, messageId, content)] *)
Definition appendToMessage (sid : jsstring) (messageId : nat)
    (c : jsstring) (st : Store) : Store :=
  with_messages st
    (<[sid := map (fun msg =>
                     if decide (id msg = messageId)
                     then {| id := id msg; role := role msg;
                             content := content msg ++ c;
                             toolName := toolName msg;
                             toolInput := toolInput msg;
                             isStreaming := isStreaming msg |}
                     else msg)
                  (messagesOf st sid)]> (sessionMessages st)).

(** The whole zustand state: the maps above and [currentStreamingMessage],
    which only the three actions below touch. *)
Record StreamingStore := {
  store : Store;
  currentStreamingMessage : gmap jsstring (option Message)
}.

(** [removeSession(id)] *)
Definition removeSession (sid : jsstring) (ss : StreamingStore)
  : StreamingStore :=
  {| store :=
       {| sessions := delete sid (sessions (store ss));
          sessionLogs := delete sid (sessionLogs (store ss));
          sessionMessages := delete sid (sessionMessages (store ss));
          messageCounter := messageCounter (store ss) |};
     currentStreamingMessage := delete sid (currentStreamingMessage ss) |}.

(** [setStreamingMessage(sessionId, message)] *)
Definition setStreamingMessage (sid : jsstring) (message : option Message)
    (ss : StreamingStore) : StreamingStore :=
  {| store := store ss;
     currentStreamingMessage :=
       <[sid := message]> (currentStreamingMessage ss) |}.

(** [finalizeStreamingMessage(sessionId)] *)
Definition finalizeStreamingMessage (sid : jsstring) (ss : StreamingStore)
  : StreamingStore :=
  match currentStreamingMessage ss !! sid with
  | Some (Some current) =>
      {| store := addMessage sid (spread current (streaming false)) (store ss);
         currentStreamingMessage :=
           <[sid := None]> (currentStreamingMessage ss) |}
  | _ => ss
  end.

(** ** The rest of [hooks/useSession.ts] *)

(** [resize(cols, rows)] of the hook *)
Definition hookResize (cols rows : N) (h : Hook) : Hook :=
  match wsRef h with
  | Some ws =>
      if decide (readyState ws = OPEN)
      then {| sessionId := sessionId h; parserRef := parserRef h;
              wsRef := Some (send (resize cols rows) ws) |}
      else h
  | None => h
  end.

(** the cleanup of the effect: [unsubscribe] if the socket is open, then
    [ws.close()] *)
Definition disconnect (h : Hook) : Hook :=
  match wsRef h with
  | Some ws =>
      let ws1 := if decide (readyState ws = OPEN) then send unsubscribe ws
                 else ws in
      {| sessionId := sessionId h; parserRef := parserRef h;
         wsRef := Some {| readyState := CLOSED; sent := sent ws1 |} |}
  | None => h
  end.

(** the socket closed from outside, by the server or by a failure of the
    connection: the browser moves it to [CLOSED]; [ws.onerror] and
    [ws.onclose] only write to the console *)
Definition onclose (h : Hook) : Hook :=
  match wsRef h with
  | Some ws =>
      {| sessionId := sessionId h; parserRef := parserRef h;
         wsRef := Some {| readyState := CLOSED; sent := sent ws |} |}
  | None => h
  end.

(** What happens to a mounted hook: a message arrives on its socket, its
    [sendInput] or its [resize] is called, or its socket is closed from
    outside. *)
Inductive HookEvent :=
| received (message : ServerMessage)
| typed (input0 : jsstring)
| resized (cols rows : N)
| closed.

Definition closes (e : HookEvent) : bool :=
  match e with closed => true | _ => false end.

Definition hook_step (e : HookEvent) (hs : Hook * Store) : Hook * Store :=
  match e with
  | received message =>
      match sessionId (fst hs) with
      | Some sid =>
          let '(parser', st') :=
            onmessage sid message (parserRef (fst hs), snd hs) in
          ({| sessionId := sessionId (fst hs); parserRef := parser';
              wsRef := wsRef (fst hs) |}, st')
      | None => hs
      end
  | typed input0 => sendInput input0 hs
  | resized cols rows => (hookResize cols rows (fst hs), snd hs)
  | closed => (onclose (fst hs), snd hs)
  end.

Definition hook_run (events : list HookEvent) (hs : Hook * Store)
  : Hook * Store :=
  fold_left (fun acc e => hook_step e acc) events hs.

(** The parser agrees with the store: no accumulation is open, or the
    open message is an assistant message of the session whose content is
    the buffer. *)
Definition coherent (sid : jsstring) (parser : OutputParser) (st : Store)
  : Prop :=
  (currentRole parser = None /\ currentMessageId parser = None)
  \/ exists mid m,
       currentRole parser = Some assistant
       /\ currentMessageId parser = Some mid
       /\ m ∈ messagesOf st sid
       /\ id m = mid /\ role m = assistant /\ content m = buffer parser.

(** The ids of the messages of every session are pairwise different. *)
Definition distinct_ids (st : Store) : Prop :=
  forall sid, NoDup (map id (messagesOf st sid)).

(** Two stores with the same messages and the same counter. *)
Definition same_transcript (st1 st2 : Store) : Prop :=
  sessionMessages st1 = sessionMessages st2
  /\ messageCounter st1 = messageCounter st2.

(** [st'] continues [st] for the session [sid]: the messages that were
    there are still there, in the same order, with their id and role; the
    other sessions, the session records and the logs are as they were;
    the counter has not gone back. *)
Definition continues (sid : jsstring) (st st' : Store) : Prop :=
  map (fun m => (id m, role m)) (messagesOf st sid)
    `prefix_of` map (fun m => (id m, role m)) (messagesOf st' sid)
  /\ (forall sid', sid' <> sid -> messagesOf st' sid' = messagesOf st sid')
  /\ sessions st' = sessions st
  /\ sessionLogs st' = sessionLogs st
  /\ (messageCounter st <= messageCounter st')%nat.

(** ** [components/ChatPanel.tsx] *)



(** ** The terminal view: writing the logs of the store to xterm *)

Record TerminalView := {
  written : list jsstring;
  lastLogIndex : nat
}.

(** the effect that runs when [logs] changes *)
Definition writeLogs (entries : list LogEntry) (t : TerminalView)
  : TerminalView :=
  {| written := written t ++ map l_content (drop (lastLogIndex t) entries);
     lastLogIndex := length entries |}.

(** successive values of [logs], each one extending the one before *)
Fixpoint growing (current : list LogEntry) (values : list (list LogEntry))
  : Prop :=
  match values with
  | [] => True
  | v :: rest => current `prefix_of` v /\ growing v rest
  end.

(** a panel for [demo], running, with an open socket *)
Definition demo_panel : Hook * Store :=
  ({| sessionId := Some demo; parserRef := emptyParser;
      wsRef := Some {| readyState := OPEN; sent := [subscribe demo] |} |},
   addSession demo {| s_name := js "demo"; s_workingDir := js "/tmp";
                      s_status := running |} initialStore).

End Frontend.

(* ===================================================================== *)
(** * Backend: session registry and event fanout                          *)
(* ===================================================================== *)

Module Backend.
Import JS.

(** ** [session.ts] *)

Inductive Status := running | stopped | error.
Inductive LogType := stdout | stderr | system.

#[global] Instance Status_eq_dec : EqDecision Status.
Proof. solve_decision. Defined.

Record LogEntry := { type : LogType; content : jsstring }.

(** [Session].  [pty] holds the handle returned by [pty.spawn], here the
    index of the process in the table of spawned processes. *)
Record Session := {
  id : jsstring;
  name : jsstring;
  workingDir : jsstring;
  pty : option nat;
  status : Status;
  logs : list LogEntry
}.

Definition set_pty (h : option nat) (s : Session) : Session :=
  {| id := id s; name := name s; workingDir := workingDir s; pty := h;
     status := status s; logs := logs s |}.
Definition set_status (st : Status) (s : Session) : Session :=
  {| id := id s; name := name s; workingDir := workingDir s; pty := pty s;
     status := st; logs := logs s |}.
Definition push_log (e : LogEntry) (s : Session) : Session :=
  {| id := id s; name := name s; workingDir := workingDir s; pty := pty s;
     status := status s; logs := logs s ++ [e] |}.

(** One process behind an [IPty] handle: the calls made on the handle, and
    whether the process has reported its exit.  [p_session] and
    [p_sessionId] are the [session] object and the [sessionId] captured by
    the [onData] and [onExit] callbacks that [startSession] registers. *)
Record Pty := {
  p_cwd : jsstring;
  p_size : N * N;
  p_written : list jsstring;
  p_killed : bool;
  p_exited : bool;
  p_session : nat;
  p_sessionId : jsstring
}.

Definition pty_write (d : jsstring) (p : Pty) : Pty :=
  {| p_cwd := p_cwd p; p_size := p_size p; p_written := p_written p ++ [d];
     p_killed := p_killed p; p_exited := p_exited p;
     p_session := p_session p; p_sessionId := p_sessionId p |}.
Definition pty_resize (cols rows : N) (p : Pty) : Pty :=
  {| p_cwd := p_cwd p; p_size := (cols, rows); p_written := p_written p;
     p_killed := p_killed p; p_exited := p_exited p;
     p_session := p_session p; p_sessionId := p_sessionId p |}.
Definition pty_kill (p : Pty) : Pty :=
  {| p_cwd := p_cwd p; p_size := p_size p; p_written := p_written p;
     p_killed := true; p_exited := p_exited p;
     p_session := p_session p; p_sessionId := p_sessionId p |}.
Definition pty_exit (p : Pty) : Pty :=
  {| p_cwd := p_cwd p; p_size := p_size p; p_written := p_written p;
     p_killed := p_killed p; p_exited := true;
     p_session := p_session p; p_sessionId := p_sessionId p |}.

(** What [this.emit] publishes. *)
Inductive Event :=
| session_created (session : nat)
| session_started (session : nat)
| session_data (sessionId : jsstring) (data : jsstring) (t : LogType)
| session_exit (sessionId : jsstring) (exitCode : Z)
| session_error (sessionId : jsstring)
| session_stopped (session : nat)
| session_deleted (sessionId : jsstring).

(** [SessionManager].  [sessions] is the [Map]; its values are references
    to [Session] objects, kept in [heap], because the callbacks of a
    process keep mutating the object they captured whatever the [Map]
    holds by then.  [ptys] is the table of spawned processes. *)
Record SessionManager := {
  sessions : gmap jsstring nat;
  heap : list Session;
  ptys : list Pty
}.

Definition emptyManager : SessionManager :=
  {| sessions := ∅; heap := []; ptys := [] |}.

(** [this.sessions.get(sessionId)] *)
Definition get (sid : jsstring) (m : SessionManager) : option (nat * Session) :=
  match sessions m !! sid with
  | Some ref =>
      match heap m !! ref with
      | Some s => Some (ref, s)
      | None => None
      end
  | None => None
  end.

Definition with_heap (h : list Session) (m : SessionManager) : SessionManager :=
  {| sessions := sessions m; heap := h; ptys := ptys m |}.
Definition with_ptys (p : list Pty) (m : SessionManager) : SessionManager :=
  {| sessions := sessions m; heap := heap m; ptys := p |}.

(** a method applied to the process behind a handle *)
Definition on_pty (h : nat) (f : Pty -> Pty) (m : SessionManager)
  : SessionManager :=
  with_ptys (alter f h (ptys m)) m.
(** a field assignment on a [Session] object *)
Definition on_session (ref : nat) (f : Session -> Session)
    (m : SessionManager) : SessionManager :=
  with_heap (alter f ref (heap m)) m.

(** the text of a number in a template literal *)
Definition numberToString (z : Z) : jsstring := js (pretty z).

(** [createSession(name, workingDir)]; [uuid] is the value of [uuidv4()]. *)
Definition createSession (uuid name0 workingDir0 : jsstring)
    (m : SessionManager) : nat * SessionManager * list Event :=
  let session :=
    {| id := uuid;
       name := if truthy name0 then name0
               else js "Session "
                    ++ numberToString (Z.of_nat (size (sessions m)) + 1);
       workingDir := workingDir0;
       pty := None;
       status := stopped;
       logs := [] |} in
  let ref := length (heap m) in
  (ref,
   {| sessions := <[uuid := ref]> (sessions m);
      heap := heap m ++ [session];
      ptys := ptys m |},
   [session_created ref]).

(** Whether [pty.spawn] returns a handle or throws. *)
Inductive SpawnOutcome := spawned | spawn_failed.

(** [startSession(sessionId)] *)
Definition startSession (sid : jsstring) (o : SpawnOutcome)
    (m : SessionManager) : bool * SessionManager * list Event :=
  match get sid m with
  | None => (false, m, [])
  | Some (ref, session) =>
      match o with
      | spawned =>
          let h := length (ptys m) in
          let p := {| p_cwd := workingDir session; p_size := (120, 40);
                      p_written := []; p_killed := false; p_exited := false;
                      p_session := ref; p_sessionId := sid |} in
          (true,
           on_session ref (fun s => set_status running (set_pty (Some h) s))
             (with_ptys (ptys m ++ [p]) m),
           [session_started ref])
      | spawn_failed =>
          (false, on_session ref (set_status error) m, [session_error sid])
      end
  end.

(** the callback given to [session.pty.onData] by [startSession], for the
    process behind handle [h] *)
Definition onData (h : nat) (d : jsstring) (m : SessionManager)
  : SessionManager * list Event :=
  match ptys m !! h with
  | Some p =>
      (on_session (p_session p)
         (push_log {| type := stdout; content := d |}) m,
       [session_data (p_sessionId p) d stdout])
  | None => (m, [])
  end.

(** the callback given to [session.pty.onExit] by [startSession]; the
    process is marked as having reported its exit *)
Definition onExit (h : nat) (exitCode : Z) (m : SessionManager)
  : SessionManager * list Event :=
  match ptys m !! h with
  | Some p =>
      (on_session (p_session p)
         (fun s =>
            push_log {| type := system;
                        content := js "Process exited with code "
                                   ++ numberToString exitCode |}
              (set_status stopped s))
         (on_pty h pty_exit m),
       [session_exit (p_sessionId p) exitCode])
  | None => (m, [])
  end.

(** [sendInput(sessionId, data)] *)
Definition sendInput (sid d : jsstring) (m : SessionManager)
  : bool * SessionManager :=
  match get sid m with
  | Some (_, session) =>
      match pty session with
      | Some h => (true, on_pty h (pty_write d) m)
      | None => (false, m)
      end
  | None => (false, m)
  end.

(** [resizeSession(sessionId, cols, rows)] *)
Definition resizeSession (sid : jsstring) (cols rows : N)
    (m : SessionManager) : bool * SessionManager :=
  match get sid m with
  | Some (_, session) =>
      match pty session with
      | Some h => (true, on_pty h (pty_resize cols rows) m)
      | None => (false, m)
      end
  | None => (false, m)
  end.

(** [stopSession(sessionId)] *)
Definition stopSession (sid : jsstring) (m : SessionManager)
  : bool * SessionManager * list Event :=
  match get sid m with
  | Some (ref, session) =>
      match pty session with
      | Some h =>
          (true, on_session ref (set_status stopped) (on_pty h pty_kill m),
           [session_stopped ref])
      | None => (false, m, [])
      end
  | None => (false, m, [])
  end.

(** [deleteSession(sessionId)] *)
Definition deleteSession (sid : jsstring) (m : SessionManager)
  : bool * SessionManager * list Event :=
  match get sid m with
  | Some (_, session) =>
      let m1 := match pty session with
                | Some h => on_pty h pty_kill m
                | None => m
                end in
      (true,
       {| sessions := delete sid (sessions m1); heap := heap m1;
          ptys := ptys m1 |},
       [session_deleted sid])
  | None => (false, m, [])
  end.

(** [getSession(sessionId)] *)
Definition getSession (sid : jsstring) (m : SessionManager) : option Session :=
  snd <$> get sid m.

(** [arr.slice(start)] *)
Definition slice_from {A} (start : Z) (l : list A) : list A :=
  let len := Z.of_nat (length l) in
  let k := if (start <? 0)%Z then Z.max (len + start) 0
           else Z.min start len in
  drop (Z.to_nat k) l.

(** [getLogs(sessionId, limit?)]; a [limit] of zero is falsy *)
Definition getLogs (sid : jsstring) (limit : option Z) (m : SessionManager)
  : list LogEntry :=
  match get sid m with
  | None => []
  | Some (_, session) =>
      match limit with
      | Some l =>
          if (l =? 0)%Z then logs session
          else slice_from (- l)%Z (logs session)
      | None => logs session
      end
  end.

(** ** the server entry point: WebSocket handling and event forwarding *)

Inductive ReadyState := CONNECTING | OPEN | CLOSING | CLOSED.

#[global] Instance ReadyState_eq_dec : EqDecision ReadyState.
Proof. solve_decision. Defined.

(** a parsed client message; [other] is any [type] without a [case] *)
Inductive ClientMessage :=
| subscribe (sessionId : jsstring)
| input (data : jsstring)
| resize (cols rows : N)
| unsubscribe
| other.

Inductive ServerMessage :=
| logs_message (entries : list LogEntry)
| data_message (data : jsstring) (dataType : LogType)
| exit_message (exitCode : Z).

(** One accepted socket: the variable [subscribedSessionId] of its handler
    closure, its state, and what [ws.send] has put on the wire. *)
Record Connection := {
  subscribedSessionId : option jsstring;
  readyState : ReadyState;
  sent : list ServerMessage
}.

(** The server: the manager, the routing table [sessionConnections] and
    the sockets accepted so far (a socket is its index). *)
Record Server := {
  manager : SessionManager;
  sessionConnections : gmap jsstring (gset nat);
  connections : list Connection
}.

Definition initialServer : Server :=
  {| manager := emptyManager; sessionConnections := ∅; connections := [] |}.

Definition with_manager (m : SessionManager) (sv : Server) : Server :=
  {| manager := m; sessionConnections := sessionConnections sv;
     connections := connections sv |}.

(** [ws.send(...)]; on a socket that is not open nothing reaches the wire *)
Definition ws_send (msg : ServerMessage) (c : Connection) : Connection :=
  if decide (readyState c = OPEN)
  then {| subscribedSessionId := subscribedSessionId c;
          readyState := readyState c; sent := sent c ++ [msg] |}
  else c.

(** [subscribedSessionId] when it is truthy *)
Definition subscribed (c : Connection) : option jsstring :=
  match subscribedSessionId c with
  | Some sid => if truthy sid then Some sid else None
  | None => None
  end.

(** the subscribers of a session, [sessionConnections.get(sessionId)] *)
Definition subscribers (sid : jsstring) (sv : Server) : gset nat :=
  default ∅ (sessionConnections sv !! sid).

(** [connections.forEach(ws => { if (ws.readyState === OPEN) ws.send(m) })]
    for the set registered under [sid] *)
Definition forward (sid : jsstring) (msg : ServerMessage) (sv : Server)
  : Server :=
  match sessionConnections sv !! sid with
  | Some set =>
      {| manager := manager sv;
         sessionConnections := sessionConnections sv;
         connections :=
           imap (fun ws c => if bool_decide (ws ∈ set) then ws_send msg c
                             else c) (connections sv) |}
  | None => sv
  end.

(** the two listeners registered with [sessionManager.on] *)
Definition listen (e : Event) (sv : Server) : Server :=
  match e with
  | session_data sid d t => forward sid (data_message d t) sv
  | session_exit sid code => forward sid (exit_message code) sv
  | _ => sv
  end.

Definition emit (es : list Event) (sv : Server) : Server :=
  fold_left (fun sv e => listen e sv) es sv.

(** [wss.on('connection', ...)] *)
Definition onConnection (sv : Server) : Server :=
  {| manager := manager sv;
     sessionConnections := sessionConnections sv;
     connections := connections sv
                    ++ [{| subscribedSessionId := None; readyState := OPEN;
                           sent := [] |}] |}.

(** [sessionConnections.get(sid)?.delete(ws)] *)
Definition remove_subscriber (sid : jsstring) (ws : nat)
    (table : gmap jsstring (gset nat)) : gmap jsstring (gset nat) :=
  alter (fun set => set ∖ {[ws]}) sid table.

(** [ws.on('message', ...)] for socket [ws] *)
Definition onMessage (ws : nat) (message : ClientMessage) (sv : Server)
  : Server :=
  match connections sv !! ws with
  | None => sv
  | Some c =>
      match message with
      | subscribe sid =>
          let table :=
            match sessionConnections sv !! sid with
            | Some set => <[sid := set ∪ {[ws]}]> (sessionConnections sv)
            | None => <[sid := {[ws]}]> (sessionConnections sv)
            end in
          let entries := getLogs sid (Some 100%Z) (manager sv) in
          {| manager := manager sv;
             sessionConnections := table;
             connections :=
               <[ws := ws_send (logs_message entries)
                         {| subscribedSessionId := Some sid;
                            readyState := readyState c;
                            sent := sent c |}]> (connections sv) |}
      | input d =>
          match subscribed c with
          | Some sid => with_manager (snd (sendInput sid d (manager sv))) sv
          | None => sv
          end
      | resize cols rows =>
          match subscribed c with
          | Some sid =>
              with_manager (snd (resizeSession sid cols rows (manager sv))) sv
          | None => sv
          end
      | unsubscribe =>
          match subscribed c with
          | Some sid =>
              {| manager := manager sv;
                 sessionConnections :=
                   remove_subscriber sid ws (sessionConnections sv);
                 connections :=
                   <[ws := {| subscribedSessionId := None;
                              readyState := readyState c;
                              sent := sent c |}]> (connections sv) |}
          | None => sv
          end
      | other => sv
      end
  end.

(** the socket closes, then [ws.on('close', ...)] runs *)
Definition onClose (ws : nat) (sv : Server) : Server :=
  match connections sv !! ws with
  | None => sv
  | Some c =>
      {| manager := manager sv;
         sessionConnections :=
           match subscribed c with
           | Some sid => remove_subscriber sid ws (sessionConnections sv)
           | None => sessionConnections sv
           end;
         connections :=
           <[ws := {| subscribedSessionId := subscribedSessionId c;
                      readyState := CLOSED; sent := sent c |}]>
             (connections sv) |}
  end.

(** The REST routes over sessions, and the process events, each followed
    by the listeners it triggers. *)
Definition postSession (uuid name0 dir : jsstring) (sv : Server) : Server :=
  let '(_, m, es) := createSession uuid name0 dir (manager sv) in
  emit es (with_manager m sv).

Definition postStart (sid : jsstring) (o : SpawnOutcome) (sv : Server)
  : bool * Server :=
  let '(ok, m, es) := startSession sid o (manager sv) in
  (ok, emit es (with_manager m sv)).

Definition postStop (sid : jsstring) (sv : Server) : bool * Server :=
  let '(ok, m, es) := stopSession sid (manager sv) in
  (ok, emit es (with_manager m sv)).

Definition deleteRoute (sid : jsstring) (sv : Server) : bool * Server :=
  let '(ok, m, es) := deleteSession sid (manager sv) in
  (ok, emit es (with_manager m sv)).

Definition ptyData (h : nat) (d : jsstring) (sv : Server) : Server :=
  let '(m, es) := onData h d (manager sv) in
  emit es (with_manager m sv).

Definition ptyExit (h : nat) (exitCode : Z) (sv : Server) : Server :=
  let '(m, es) := onExit h exitCode (manager sv) in
  emit es (with_manager m sv).

(** A process that can still produce output or report its exit. *)
Definition unreported (h : nat) (m : SessionManager) : Prop :=
  exists p, ptys m !! h = Some p /\ p_exited p = false.

(** A socket that can still deliver a message or a close. *)
Definition connected (ws : nat) (sv : Server) : Prop :=
  exists c, connections sv !! ws = Some c /\ readyState c = OPEN.

(** What can happen to the server, one event-loop turn at a time. *)
Inductive step : Server -> Server -> Prop :=
| step_connection sv :
    step sv (onConnection sv)
| step_message sv ws message :
    connected ws sv -> step sv (onMessage ws message sv)
| step_close sv ws :
    connected ws sv -> step sv (onClose ws sv)
| step_create sv uuid name0 dir :
    step sv (postSession uuid name0 dir sv)
| step_start sv sid o :
    step sv (snd (postStart sid o sv))
| step_stop sv sid :
    step sv (snd (postStop sid sv))
| step_delete sv sid :
    step sv (snd (deleteRoute sid sv))
| step_data sv h d :
    unreported h (manager sv) -> step sv (ptyData h d sv)
| step_exit sv h exitCode :
    unreported h (manager sv) -> step sv (ptyExit h exitCode sv).

Inductive reachable : Server -> Prop :=
| reachable_initial : reachable initialServer
| reachable_step sv sv' : reachable sv -> step sv sv' -> reachable sv'.

(** The process field of [s] is non-null and that process has not
    reported exit. *)
Definition live (m : SessionManager) (s : Session) : Prop :=
  exists h p, pty s = Some h /\ ptys m !! h = Some p /\ p_exited p = false.

(** ** Consistency of the registry *)

(** Every handle stored in a session object is a process spawned for that
    object. *)
Definition owned (m : SessionManager) : Prop :=
  forall ref s h, heap m !! ref = Some s -> pty s = Some h ->
    exists p, ptys m !! h = Some p /\ p_session p = ref.

(** Every session object whose status is [running] has a process that has
    not reported exit. *)
Definition running_live (m : SessionManager) : Prop :=
  forall ref s, heap m !! ref = Some s -> status s = running -> live m s.

Definition consistent (m : SessionManager) : Prop :=
  owned m /\ running_live m.

(** ** Scenarios *)

Definition s1 : jsstring := js "s1".
Definition s2 : jsstring := js "s2".

(** session [s1] created in [/tmp] and started *)
Definition started_server : Server :=
  snd (postStart s1 spawned (postSession s1 (js "demo") (js "/tmp")
                               initialServer)).

(** ... and then stopped through the stop route *)
Definition stopped_server : Server := snd (postStop s1 started_server).

(** session [s1] created and never started *)
Definition created_server : Server :=
  postSession s1 (js "demo") (js "/tmp") initialServer.

(** a socket that subscribes to the running [s1] and then to [s2] *)
Definition subscribed_server : Server :=
  onMessage 0 (subscribe s1) (onConnection started_server).
Definition resubscribed_server : Server :=
  onMessage 0 (subscribe s2) subscribed_server.

(** ... and [s1] deleted while the socket is subscribed to it *)
Definition deleted_server : Server := snd (deleteRoute s1 subscribed_server).

(** the running [s1] started a second time *)
Definition restarted_server : Server :=
  snd (postStart s1 spawned started_server).

(** ** The registry as a map to objects *)

(** Every id of the [Map] refers to an allocated session object, and no
    two ids refer to the same object. *)
Definition registry_wf (m : SessionManager) : Prop :=
  (forall sid ref, sessions m !! sid = Some ref ->
     (ref < length (heap m))%nat)
  /\ (forall sid1 sid2 ref,
        sessions m !! sid1 = Some ref -> sessions m !! sid2 = Some ref ->
        sid1 = sid2).

(** ** Clients that subscribe once at a time *)

(** A [subscribe] from a socket that has no subscription, for a
    non-empty session id; any other message.  The client of this
    repository opens one socket per session and subscribes once, when
    the socket opens. *)
Definition polite (ws : nat) (message : ClientMessage) (sv : Server) : Prop :=
  match message with
  | subscribe sid =>
      truthy sid = true
      /\ exists c, connections sv !! ws = Some c
                   /\ subscribedSessionId c = None
  | _ => True
  end.

Inductive step_polite : Server -> Server -> Prop :=
| polite_connection sv :
    step_polite sv (onConnection sv)
| polite_message sv ws message :
    connected ws sv -> polite ws message sv ->
    step_polite sv (onMessage ws message sv)
| polite_close sv ws :
    connected ws sv -> step_polite sv (onClose ws sv)
| polite_create sv uuid name0 dir :
    step_polite sv (postSession uuid name0 dir sv)
| polite_start sv sid o :
    step_polite sv (snd (postStart sid o sv))
| polite_stop sv sid :
    step_polite sv (snd (postStop sid sv))
| polite_delete sv sid :
    step_polite sv (snd (deleteRoute sid sv))
| polite_data sv h d :
    unreported h (manager sv) -> step_polite sv (ptyData h d sv)
| polite_exit sv h exitCode :
    unreported h (manager sv) -> step_polite sv (ptyExit h exitCode sv).

Inductive reachable_polite : Server -> Prop :=
| reachable_polite_initial : reachable_polite initialServer
| reachable_polite_step sv sv' :
    reachable_polite sv -> step_polite sv sv' -> reachable_polite sv'.

(** Every member of a subscriber set is a socket whose current
    subscription is that session. *)
Definition routed (sv : Server) : Prop :=
  forall sid ws, ws ∈ subscribers sid sv ->
    exists c, connections sv !! ws = Some c
              /\ subscribedSessionId c = Some sid.

(** [s'] is the session [s] later on: same id, name and working
    directory, and the log only extended. *)
Definition same_identity (s s' : Session) : Prop :=
  id s' = id s /\ name s' = name s /\ workingDir s' = workingDir s
  /\ logs s `prefix_of` logs s'.

(** [s2] created with an empty name next to [s1], and [s1] started *)
Definition two_sessions_server : Server :=
  snd (postStart s1 spawned (postSession s2 [] (js "/home") created_server)).

(** Every registered object carries the id it is registered under, and
    the callbacks of every process captured the id of the object they
    captured. *)
Definition named (m : SessionManager) : Prop :=
  (forall sid ref s, sessions m !! sid = Some ref ->
     heap m !! ref = Some s -> id s = sid)
  /\ (forall h p, ptys m !! h = Some p ->
        exists s, heap m !! p_session p = Some s /\ id s = p_sessionId p).

End Backend.

(* ===================================================================== *)
(** * Properties of the matcher                                           *)
(* ===================================================================== *)

Module MatcherProperties.
Import JS.

Section Run.
Context {R : Type}.
Variable total : nat.

Local Abbreviation cont := (jsstring -> option jsstring -> option R).

(** The iterations of a star only use the continuation on texts that are
    not longer than the current one, as long as a step does. *)
Lemma star_loop_ext step (k1 k2 : cont) :
  (forall s cap (c1 c2 : cont),
     (forall s' cap', (length s' <= length s)%nat -> c1 s' cap' = c2 s' cap') ->
     step s cap c1 = step s cap c2) ->
  forall n s cap,
    (forall s' cap', (length s' <= length s)%nat -> k1 s' cap' = k2 s' cap') ->
    star_loop step k1 n s cap = star_loop step k2 n s cap.
Proof.
  intros Hstep. induction n as [|n IH]; intros s cap Hk; simpl.
  - apply Hk. lia.
  - rewrite (Hstep s cap _
               (fun s' cap' =>
                  if (length s' <? length s)%nat
                  then star_loop step k2 n s' cap' else None)).
    + now rewrite (Hk s cap) by lia.
    + intros s' cap' Hle.
      destruct (Nat.ltb_spec (length s') (length s)); [|reflexivity].
      apply IH. intros s'' cap'' Hle'. apply Hk. lia.
Qed.

(** The matcher only hands shorter or equal texts to its continuation:
    two continuations that agree on them give the same result. *)
Lemma run_ext r : forall s cap (k1 k2 : cont),
  (forall s' cap', (length s' <= length s)%nat -> k1 s' cap' = k2 s' cap') ->
  run total r s cap k1 = run total r s cap k2.
Proof.
  induction r as [|p|r1 IH1 r2 IH2|r1 IH1 r2 IH2|r IH| | |r IH];
    intros s cap k1 k2 Hk; simpl.
  - apply Hk. lia.
  - destruct s as [|c s']; [reflexivity|].
    destruct (p c); [|reflexivity]. apply Hk. simpl. lia.
  - apply IH1. intros s' cap' Hle. apply IH2.
    intros s'' cap'' Hle'. apply Hk. lia.
  - now rewrite (IH1 s cap k1 k2 Hk), (IH2 s cap k1 k2 Hk).
  - apply star_loop_ext; [|exact Hk]. intros. now apply IH.
  - destruct (length s =? total)%nat; [|reflexivity]. apply Hk. lia.
  - destruct s; [|reflexivity]. apply Hk. lia.
  - apply IH. intros s' cap' Hle. apply Hk. exact Hle.
Qed.

(** A continuation that always fails makes the match fail. *)
Lemma run_fail r : forall s cap,
  run total r s cap (fun _ _ => @None R) = None.
Proof.
  induction r as [|p|r1 IH1 r2 IH2|r1 IH1 r2 IH2|r IH| | |r IH];
    intros s cap; simpl; try reflexivity.
  - destruct s as [|c s']; [reflexivity|]. now destruct (p c).
  - rewrite (run_ext r1 s cap _ (fun _ _ => None)); [apply IH1|].
    intros s' cap' _. apply IH2.
  - now rewrite IH1, IH2.
  - generalize (length s). intros n. revert s cap.
    induction n as [|n IHn]; intros s cap; simpl; [reflexivity|].
    rewrite (run_ext r s cap _ (fun _ _ => None)); [now rewrite IH|].
    intros s' cap' _. destruct (length s' <? length s)%nat; [apply IHn|reflexivity].
  - now destruct (length s =? total)%nat.
  - now destruct s.
  - apply IH.
Qed.

(** The bound on the iterations of a star is never reached: any bound
    from the length of the text on gives the same result. *)
Lemma star_loop_fuel r (k : cont) : forall n m s cap,
  (length s <= n)%nat -> (length s <= m)%nat ->
  star_loop (run total r) k n s cap = star_loop (run total r) k m s cap.
Proof.
  assert (Hzero : forall m s cap, length s = 0%nat ->
            star_loop (run total r) k m s cap = k s cap).
  { intros [|m] s cap Hs; simpl; [reflexivity|].
    rewrite (run_ext r s cap _ (fun _ _ => None)); [now rewrite run_fail|].
    intros s' cap' _. rewrite Hs.
    now destruct (Nat.ltb_spec (length s') 0). }
  induction n as [|n IH]; intros m s cap Hn Hm.
  - simpl. symmetry. apply Hzero. lia.
  - destruct m as [|m]; [apply Hzero; lia|]. simpl.
    rewrite (run_ext r s cap _
               (fun s' cap' =>
                  if (length s' <? length s)%nat
                  then star_loop (run total r) k m s' cap' else None));
      [reflexivity|].
    intros s' cap' _.
    destruct (Nat.ltb_spec (length s') (length s)); [|reflexivity].
    apply IH; lia.
Qed.

(** The equation of the greedy star: one more iteration that consumes
    something, then the star again; otherwise the continuation. *)
Lemma run_star r s cap (k : cont) :
  run total (Star r) s cap k =
    match run total r s cap
            (fun s' cap' =>
               if (length s' <? length s)%nat
               then run total (Star r) s' cap' k else None) with
    | Some x => Some x
    | None => k s cap
    end.
Proof.
  cbn [run].
  rewrite (star_loop_fuel r k (length s) (S (length s)) s cap) by lia.
  cbn [star_loop].
  rewrite (run_ext r s cap _
             (fun s' cap' =>
                if (length s' <? length s)%nat
                then star_loop (run total r) k (length s') s' cap'
                else None)); [reflexivity|].
  intros s' cap' _.
  destruct (Nat.ltb_spec (length s') (length s)); [|reflexivity].
  apply star_loop_fuel; lia.
Qed.

End Run.

(** The scan of [replace_all] never runs out of fuel: any fuel above the
    length of the text gives the same result. *)
Lemma replace_all_from_fuel total r : forall f1 f2 s,
  (length s < f1)%nat -> (length s < f2)%nat ->
  replace_all_from total r f1 s = replace_all_from total r f2 s.
Proof.
  induction f1 as [|f1 IH]; intros f2 s H1 H2; [lia|].
  destruct f2 as [|f2]; [lia|]. simpl.
  assert (Hcopy : match s with
                  | [] => []
                  | c :: t => c :: replace_all_from total r f1 t
                  end
                  = match s with
                    | [] => []
                    | c :: t => c :: replace_all_from total r f2 t
                    end).
  { destruct s as [|c t]; [reflexivity|]. simpl in *.
    f_equal. apply IH; lia. }
  destruct (run total r s None _) as [s'|]; [|exact Hcopy].
  destruct (Nat.ltb_spec (length s') (length s)); [|exact Hcopy].
  apply IH; lia.
Qed.

End MatcherProperties.


(* ===================================================================== *)
(** * Properties of the output parser                                     *)
(* ===================================================================== *)

Module ParserProperties.
Import JS Frontend.

#[local] Arguments parseClaudeOutput : simpl never.
#[local] Arguments some_test : simpl never.
#[local] Arguments test : simpl never.
#[local] Arguments trim : simpl never.

(** ** Strings *)

Lemma trimStart_length s : (length (trimStart s) <= length s)%nat.
Proof.
  induction s as [|c t IH]; simpl; [lia|].
  destruct (is_space c); simpl; lia.
Qed.

Lemma trim_length s : (length (trim s) <= length s)%nat.
Proof.
  unfold trim, trimEnd. rewrite length_rev.
  etransitivity; [apply trimStart_length|].
  rewrite length_rev. apply trimStart_length.
Qed.

Lemma join_merge (sep a b : jsstring) ls :
  join sep ((a ++ sep ++ b) :: ls) = join sep (a :: b :: ls).
Proof.
  destruct ls as [|c ls]; simpl; [reflexivity|].
  now rewrite <- !app_assoc.
Qed.

(** ** The store *)

Lemma messagesOf_addMessage sid m st :
  messagesOf (addMessage sid m st) sid = messagesOf st sid ++ [m].
Proof. unfold messagesOf, addMessage; simpl. now rewrite lookup_insert_eq. Qed.

Lemma messagesOf_updateMessage sid mid u st :
  messagesOf (updateMessage sid mid u st) sid
  = map (fun msg => if decide (id msg = mid) then spread msg u else msg)
        (messagesOf st sid).
Proof. unfold messagesOf, updateMessage; simpl. now rewrite lookup_insert_eq. Qed.

Lemma update_other_ids (mid : nat) u (l : list Message) :
  Forall (fun m => id m <> mid) l ->
  map (fun msg => if decide (id msg = mid) then spread msg u else msg) l = l.
Proof.
  induction 1 as [|m l Hm _ IH]; simpl; [reflexivity|].
  rewrite IH. destruct (decide (id m = mid)); [contradiction|reflexivity].
Qed.

(** ** Message ids *)

Lemma well_numbered_initial : well_numbered initialStore.
Proof. intros sid. unfold ids_generated, messagesOf. simpl. constructor. Qed.

Lemma well_numbered_addMessage sid m st :
  (id m <= messageCounter st)%nat ->
  well_numbered st -> well_numbered (addMessage sid m st).
Proof.
  intros Hm H sid'. unfold ids_generated.
  destruct (decide (sid = sid')) as [<-|Hne].
  - rewrite messagesOf_addMessage. apply Forall_app. split; [apply H|].
    repeat constructor. exact Hm.
  - unfold messagesOf, addMessage. simpl.
    rewrite lookup_insert_ne by assumption. apply H.
Qed.

Lemma well_numbered_updateMessage sid mid u st :
  well_numbered st -> well_numbered (updateMessage sid mid u st).
Proof.
  intros H sid'. unfold ids_generated.
  destruct (decide (sid = sid')) as [<-|Hne].
  - rewrite messagesOf_updateMessage. apply Forall_map.
    eapply Forall_impl; [apply H|]. simpl. intros m Hm.
    now destruct (decide (id m = mid)).
  - unfold messagesOf, updateMessage. simpl.
    rewrite lookup_insert_ne by assumption. apply H.
Qed.

Lemma well_numbered_create_add sid r c o st :
  well_numbered st ->
  well_numbered (addMessage sid (fst (createMessage r c o st))
                   (snd (createMessage r c o st))).
Proof.
  intros H. apply well_numbered_addMessage; [simpl; lia|].
  intros sid'. eapply Forall_impl; [apply H|]. simpl. intros m Hm. lia.
Qed.

Lemma well_numbered_processLine sid parser st line :
  well_numbered st ->
  well_numbered (snd (processLine sid (parser, st) line)).
Proof.
  intros H. unfold processLine.
  destruct (negb (truthy (trim line))); [exact H|].
  destruct (some_test uiPatterns (trim line)); [exact H|].
  destruct ((length (trim line) <? 3)%nat
            && negb (test (Class is_alpha) (trim line))); [exact H|].
  destruct (p_type (parseClaudeOutput (trim line)));
    destruct (openMessage parser); simpl;
    auto using well_numbered_updateMessage;
    try (apply (well_numbered_create_add sid);
         auto using well_numbered_updateMessage).
  match goal with n : nat |- _ =>
    apply (well_numbered_create_add sid tool _ _
             (updateMessage sid n (streaming false) st))
  end.
  now apply well_numbered_updateMessage.
Qed.

Lemma well_numbered_lines sid lines : forall parser st,
  well_numbered st ->
  well_numbered (snd (fold_left (processLine sid) lines (parser, st))).
Proof.
  induction lines as [|l lines IH]; intros parser st H; [exact H|].
  cbn [fold_left].
  pose proof (well_numbered_processLine sid parser st l H) as H1.
  destruct (processLine sid (parser, st) l) as [parser1 st1]. now apply IH.
Qed.

(** [processData] keeps the store well numbered, so the hypothesis on ids
    of the accumulation theorem holds of every store the parser builds. *)
Lemma well_numbered_processData sid chunk parser st :
  well_numbered st ->
  well_numbered (snd (processData sid chunk (parser, st))).
Proof. apply well_numbered_lines. Qed.

Lemma well_numbered_logs sid entries : forall parser st,
  well_numbered st ->
  well_numbered
    (snd (fold_left (fun acc log => processData sid (l_content log) acc)
            entries (parser, st))).
Proof.
  induction entries as [|e entries IH]; intros parser st H; [exact H|].
  cbn [fold_left].
  pose proof (well_numbered_processData sid (l_content e) parser st H) as H1.
  destruct (processData sid (l_content e) (parser, st)) as [parser1 st1].
  now apply IH.
Qed.

Lemma well_numbered_onmessage sid message parser st :
  well_numbered st ->
  well_numbered (snd (onmessage sid message (parser, st))).
Proof.
  intros H. destruct message as [entries|chunk dataType|exitCode]; simpl.
  - now apply well_numbered_logs.
  - now apply well_numbered_processData.
  - destruct (currentMessageId parser) as [mid|].
    + apply (well_numbered_create_add sid system _ _
               (updateMessage sid mid (streaming false)
                  (updateSession sid stopped st))).
      now apply well_numbered_updateMessage.
    + now apply (well_numbered_create_add sid system _ _
                   (updateSession sid stopped st)).
Qed.

(** the refs and the store [sendInput] leaves, read off its run *)
Lemma sendInput_unfold data0 h st :
  sendInput data0 (h, st)
  = match wsRef h with
    | Some ws =>
        if decide (readyState ws = OPEN) then
          let '(parser', st') :=
            if truthy (trim data0) && negb (str_eqb data0 [3]) then
              let '(userMsg, st1) :=
                createMessage user (replace_first (chr 10 +++ Eol)%re data0)
                  no_updates st in
              match sessionId h with
              | Some sid =>
                  if truthy sid then
                    let st2 := addMessage sid userMsg st1 in
                    match openMessage (parserRef h) with
                    | Some mid =>
                        (emptyParser,
                         updateMessage sid mid (streaming false) st2)
                    | None => (parserRef h, st2)
                    end
                  else (parserRef h, st1)
              | None => (parserRef h, st1)
              end
            else (parserRef h, st) in
          ({| sessionId := sessionId h; parserRef := parser';
              wsRef := Some (send (input data0) ws) |}, st')
        else (h, st)
    | None => (h, st)
    end.
Proof.
  unfold sendInput, sendInput_run, run_send, run_setParser,
    run_updateMessage, run_addMessage, run_createMessage.
  destruct h as [sid0 parser0 ws0]. cbn [fst snd r_hook r_store wsRef].
  destruct ws0 as [ws|]; [|reflexivity].
  destruct (decide (readyState ws = OPEN)); [|reflexivity].
  destruct (truthy (trim data0) && negb (str_eqb data0 [3]));
    [|reflexivity].
  destruct (createMessage user _ no_updates st) as [userMsg st1].
  cbn [r_hook sessionId].
  destruct sid0 as [sid|]; [|reflexivity].
  destruct (truthy sid); [|reflexivity].
  cbn [r_hook parserRef].
  destruct (openMessage parser0); reflexivity.
Qed.

Lemma well_numbered_sendInput data0 h st :
  well_numbered st -> well_numbered (snd (sendInput data0 (h, st))).
Proof.
  intros H. rewrite sendInput_unfold.
  destruct (wsRef h) as [ws|]; [|exact H].
  destruct (decide (readyState ws = OPEN)); [|exact H].
  destruct (truthy (trim data0) && negb (str_eqb data0 [3])); [|exact H].
  assert (Hskip : well_numbered
                    (snd (createMessage user
                            (replace_first (chr 10 +++ Eol)%re data0)
                            no_updates st))).
  { intros sid. eapply Forall_impl; [apply H|]. simpl. intros m Hm. lia. }
  destruct (sessionId h) as [sid|]; simpl; [|exact Hskip].
  destruct (truthy sid); simpl; [|exact Hskip].
  destruct (openMessage (parserRef h)); simpl;
    [apply well_numbered_updateMessage|];
    now apply (well_numbered_create_add sid user _ _ st).
Qed.

(** ** The classifier on short lines *)

Lemma parse_short d :
  (length (trim d) < 2)%nat -> parseClaudeOutput d = parsed t_skip [].
Proof.
  intros H. apply Nat.ltb_lt in H.
  unfold parseClaudeOutput. cbv zeta. now rewrite H.
Qed.

(** ** Short lines *)

Lemma short_line_dropped sid ps line :
  (length (trim line) < 2)%nat -> processLine sid ps line = ps.
Proof.
  intros H.
  assert (H' : (length (trim (trim line)) < 2)%nat)
    by (pose proof (trim_length (trim line)); lia).
  destruct ps as [parser st]. unfold processLine.
  destruct (negb (truthy (trim line))); [reflexivity|].
  destruct (some_test uiPatterns (trim line)); [reflexivity|].
  destruct ((length (trim line) <? 3)%nat
            && negb (test (Class is_alpha) (trim line))); [reflexivity|].
  now rewrite parse_short.
Qed.

(** A chunk that is one letter changes nothing, even in the middle of an
    assistant accumulation. *)
Example single_letter_chunk_dropped ps :
  processData demo (js "a") ps = ps.
Proof.
  unfold processData.
  replace (split_nl (stripEscapes (js "a"))) with [js "a"]
    by (vm_compute; reflexivity).
  simpl. apply short_line_dropped. vm_compute. lia.
Qed.

(** C10.  A line whose trimmed text has fewer than two code units is
    classified ['skip'] by [parseClaudeOutput], whether it is given the
    line or its trimmed text, and the loop of [processData] leaves the
    parser and the store as they were: the line never reaches the
    transcript, whatever its single character is. *)
Theorem C10_short_line_skipped sid ps line :
  (length (trim line) < 2)%nat ->
  p_type (parseClaudeOutput line) = t_skip
  /\ p_type (parseClaudeOutput (trim line)) = t_skip
  /\ processLine sid ps line = ps.
Proof.
  intros H.
  assert (H' : (length (trim (trim line)) < 2)%nat)
    by (pose proof (trim_length (trim line)); lia).
  split; [now rewrite parse_short|].
  split; [now rewrite parse_short|].
  now apply short_line_dropped.
Qed.

Lemma C10_short_line_skipped_witness :
  p_type (parseClaudeOutput (js "a")) = t_skip
  /\ p_type (parseClaudeOutput (trim (js "a"))) = t_skip
  /\ processLine demo demo_open (js "a") = demo_open.
Proof.
  apply (C10_short_line_skipped demo demo_open (js "a")).
  vm_compute. lia.
Defined.

(** ** Accumulation of raw lines *)

Lemma processLine_raw sid parser st line :
  rawLine line = true ->
  processLine sid (parser, st) line =
    match openMessage parser with
    | None =>
        ({| currentRole := Some assistant; buffer := line;
            currentMessageId := Some (S (messageCounter st)) |},
         addMessage sid (open_message (S (messageCounter st)) line)
           (snd (createMessage assistant line (streaming true) st)))
    | Some mid =>
        ({| currentRole := currentRole parser;
            buffer := buffer parser ++ [10] ++ line;
            currentMessageId := currentMessageId parser |},
         updateMessage sid mid
           {| u_content := Some (buffer parser ++ [10] ++ line);
              u_toolName := None; u_toolInput := None;
              u_isStreaming := Some true |} st)
    end.
Proof.
  unfold rawLine, classified. cbv zeta.
  rewrite !andb_true_iff, !negb_true_iff.
  intros [[[Ht Hui] Hshort] Hraw]. apply bool_decide_eq_true in Hraw.
  unfold processLine. rewrite Ht, Hui, Hshort, Hraw. simpl.
  destruct (openMessage parser); reflexivity.
Qed.

Lemma openMessage_inv parser mid :
  openMessage parser = Some mid ->
  currentRole parser = Some assistant /\ currentMessageId parser = Some mid.
Proof.
  unfold openMessage.
  destruct (currentRole parser) as [[]|], (currentMessageId parser);
    intros [= <-] || discriminate; auto.
Qed.

(** Raw lines appended to an accumulation that is already open. *)
Lemma raw_lines_append sid ls : forall parser st mid old,
  openMessage parser = Some mid ->
  Forall (fun x => rawLine x = true) ls ->
  messagesOf st sid = old ++ [open_message mid (buffer parser)] ->
  Forall (fun m => id m <> mid) old ->
  let ps' := fold_left (processLine sid) ls (parser, st) in
  fst ps' = {| currentRole := Some assistant;
               buffer := join [10] (buffer parser :: ls);
               currentMessageId := Some mid |}
  /\ messagesOf (snd ps') sid
     = old ++ [open_message mid (join [10] (buffer parser :: ls))]
  /\ messageCounter (snd ps') = messageCounter st.
Proof.
  induction ls as [|l ls IH]; intros parser st mid old Hopen Hraw Hmsgs Hold.
  - destruct (openMessage_inv _ _ Hopen) as [Hr Hi].
    destruct parser as [r b i]; simpl in *. subst. auto.
  - inversion Hraw as [|? ? Hl Hls]; subst.
    cbn [fold_left]. rewrite (processLine_raw _ _ _ _ Hl), Hopen.
    destruct (openMessage_inv _ _ Hopen) as [Hr Hi].
    match goal with |- context [fold_left _ ls (?p, ?s)] =>
      destruct (IH p s mid old) as (H1 & H2 & H3) end.
    + unfold openMessage; simpl. now rewrite Hr, Hi.
    + assumption.
    + rewrite messagesOf_updateMessage, Hmsgs, map_app.
      rewrite update_other_ids by assumption. simpl.
      destruct (decide (mid = mid)); [reflexivity|contradiction].
    + assumption.
    + cbn [buffer] in H1, H2. rewrite join_merge in H1, H2. auto.
Qed.

(** Raw lines fed to a parser with no accumulation open. *)
Lemma raw_lines_result sid parser st l ls :
  openMessage parser = None ->
  ids_generated st sid ->
  Forall (fun x => rawLine x = true) (l :: ls) ->
  let mid := S (messageCounter st) in
  let ps' := fold_left (processLine sid) (l :: ls) (parser, st) in
  fst ps' = {| currentRole := Some assistant;
               buffer := join [10] (l :: ls);
               currentMessageId := Some mid |}
  /\ messagesOf (snd ps') sid
     = messagesOf st sid ++ [open_message mid (join [10] (l :: ls))]
  /\ messageCounter (snd ps') = mid.
Proof.
  intros Hclosed Hids Hraw. inversion Hraw as [|? ? Hl Hls]; subst.
  cbn [fold_left]. rewrite (processLine_raw _ _ _ _ Hl), Hclosed.
  match goal with |- context [fold_left _ ls (?p, ?s)] =>
    destruct (raw_lines_append sid ls p s (S (messageCounter st))
                (messagesOf st sid)) as (H1 & H2 & H3) end.
  - reflexivity.
  - assumption.
  - now rewrite messagesOf_addMessage.
  - eapply Forall_impl; [exact Hids|]. simpl. intros m Hm. lia.
  - cbn zeta. auto.
Qed.

(** C5.  A non-empty sequence of raw-classified lines, processed from a
    parser with no accumulation open, generates exactly one message id
    (the counter advances by one), that id is the current message id after
    every non-empty prefix of the sequence, and the store ends with one
    more message: the assistant message of that id whose content is the
    lines joined by line feeds. *)
Theorem C5_raw_lines_one_message sid parser st l ls :
  openMessage parser = None ->
  ids_generated st sid ->
  Forall (fun x => rawLine x = true) (l :: ls) ->
  let mid := S (messageCounter st) in
  let ps' := fold_left (processLine sid) (l :: ls) (parser, st) in
  (forall pre, pre <> [] -> pre `prefix_of` (l :: ls) ->
     currentMessageId (fst (fold_left (processLine sid) pre (parser, st)))
     = Some mid)
  /\ messageCounter (snd ps') = mid
  /\ currentRole (fst ps') = Some assistant
  /\ buffer (fst ps') = join [10] (l :: ls)
  /\ messagesOf (snd ps') sid
     = messagesOf st sid
       ++ [{| id := mid; role := assistant; content := join [10] (l :: ls);
              toolName := None; toolInput := None; isStreaming := true |}].
Proof.
  intros Hclosed Hids Hraw mid ps'.
  destruct (raw_lines_result sid parser st l ls Hclosed Hids Hraw)
    as (H1 & H2 & H3).
  fold ps' in H1, H2, H3. rewrite H1. simpl.
  repeat split; try assumption.
  intros [|x pre] Hne [k Hk]; [contradiction|].
  simpl in Hk. injection Hk as <- ->.
  change (l :: pre ++ k) with ((l :: pre) ++ k) in Hraw.
  apply Forall_app in Hraw as [Hraw _].
  destruct (raw_lines_result sid parser st l pre Hclosed Hids Hraw)
    as (H1' & _). now rewrite H1'.
Qed.

Lemma C5_raw_lines_one_message_witness :
  let ps' := fold_left (processLine demo) [js "Hello"; js " world"]
               (emptyParser, initialStore) in
  (forall pre, pre <> [] -> pre `prefix_of` [js "Hello"; js " world"] ->
     currentMessageId
       (fst (fold_left (processLine demo) pre (emptyParser, initialStore)))
     = Some 1%nat)
  /\ messageCounter (snd ps') = 1%nat
  /\ currentRole (fst ps') = Some assistant
  /\ buffer (fst ps') = join [10] [js "Hello"; js " world"]
  /\ messagesOf (snd ps') demo
     = messagesOf initialStore demo
       ++ [{| id := 1; role := assistant;
              content := join [10] [js "Hello"; js " world"];
              toolName := None; toolInput := None; isStreaming := true |}].
Proof.
  apply (C5_raw_lines_one_message demo emptyParser initialStore
           (js "Hello") [js " world"]).
  - reflexivity.
  - unfold ids_generated. vm_compute. constructor.
  - repeat constructor; vm_compute; reflexivity.
Defined.

(** Lines that the loop drops may be interleaved with the raw lines
    without any effect: only the raw lines count. *)
Lemma dropped_line_identity sid ps line :
  droppedLine line = true -> processLine sid ps line = ps.
Proof.
  unfold droppedLine. cbv zeta. rewrite !orb_true_iff.
  intros H. destruct ps as [parser st]. unfold processLine.
  destruct (negb (truthy (trim line))); [reflexivity|].
  destruct (some_test uiPatterns (trim line)); [reflexivity|].
  destruct ((length (trim line) <? 3)%nat
            && negb (test (Class is_alpha) (trim line))); [reflexivity|].
  destruct H as [[[H|H]|H]|H]; try discriminate H.
  apply bool_decide_eq_true in H. now rewrite H.
Qed.

Lemma raw_or_dropped_fold sid lines : forall ps,
  Forall (fun x => rawLine x = true \/ droppedLine x = true) lines ->
  fold_left (processLine sid) lines ps
  = fold_left (processLine sid) (List.filter rawLine lines) ps.
Proof.
  induction lines as [|l lines IH]; intros ps H; [reflexivity|].
  inversion H as [|? ? Hl Hls]; subst. cbn [fold_left List.filter].
  destruct (rawLine l) eqn:Hraw; cbn [fold_left]; [now apply IH|].
  destruct Hl as [Hl|Hl]; [discriminate Hl|].
  rewrite (dropped_line_identity _ _ _ Hl). now apply IH.
Qed.

(** Two chunks that end their lines: the empty lines left by [split] are
    dropped and the two raw lines make one message. *)
Example two_line_chunks :
  let ps := processData demo (js "world" ++ [10])
              (processData demo (js "Hello" ++ [10])
                 (emptyParser, initialStore)) in
  buffer (fst ps) = js "Hello" ++ [10] ++ js "world"
  /\ map (fun m => (id m, content m, isStreaming m))
       (messagesOf (snd ps) demo)
     = [(1%nat, js "Hello" ++ [10] ++ js "world", true)].
Proof. split; vm_compute; reflexivity. Qed.

(** ** Boundary lines *)

Lemma classified_inv t line :
  classified t line = true ->
  negb (truthy (trim line)) = false
  /\ some_test uiPatterns (trim line) = false
  /\ (length (trim line) <? 3)%nat
     && negb (test (Class is_alpha) (trim line)) = false
  /\ p_type (parseClaudeOutput (trim line)) = t.
Proof.
  unfold classified. cbv zeta. rewrite !andb_true_iff, !negb_true_iff.
  intros [[[Ht Hui] Hshort] Hty]. apply bool_decide_eq_true in Hty.
  rewrite Ht. auto.
Qed.

(** A user line closes an open accumulation and resets the three fields
    of the parser. *)
Lemma user_line_flushes sid parser st line mid :
  classified t_user line = true ->
  openMessage parser = Some mid ->
  processLine sid (parser, st) line
  = (emptyParser, updateMessage sid mid (streaming false) st).
Proof.
  intros (H1 & H2 & H3 & H4)%classified_inv Hopen.
  unfold processLine. now rewrite H1, H2, H3, H4, Hopen.
Qed.

(** A tool line resets the role and the message id, and leaves the buffer
    as it was. *)
Lemma tool_line_keeps_buffer sid parser st line :
  classified t_tool line = true ->
  let parser' := fst (processLine sid (parser, st) line) in
  currentRole parser' = None
  /\ currentMessageId parser' = None
  /\ buffer parser' = buffer parser.
Proof.
  intros (H1 & H2 & H3 & H4)%classified_inv.
  unfold processLine. rewrite H1, H2, H3, H4.
  destruct (createMessage tool _ _ _) as [toolMsg st2]. simpl. auto.
Qed.

(** ** The scenario of the specification *)

(** C1 (as the code behaves).  After the chunks [Hello] and [ world] with
    its line feed and the tool line, the session has exactly two messages:
    the assistant message, closed, whose content is the two chunk lines
    joined by a line feed (the second one untrimmed), then the tool
    message named [Bash] with the whole line as content. *)
Theorem C1_demo_scenario_messages :
  messagesOf (snd demo_scenario) demo =
    [ {| id := 1; role := assistant;
         content := js "Hello" ++ [10] ++ js " world";
         toolName := None; toolInput := None; isStreaming := false |};
      {| id := 2; role := tool; content := js "Bash: ls -la";
         toolName := Some (js "Bash"); toolInput := Some (js " ls -la");
         isStreaming := false |} ].
Proof. vm_compute. reflexivity. Qed.

(** C1 as stated fails: the two messages are there, but the content of
    the assistant message is not [Hello world]. *)
Lemma C1_content_is_not_hello_world :
  ~ (exists a t,
       messagesOf (snd demo_scenario) demo = [a; t]
       /\ role a = assistant /\ content a = js "Hello world"
       /\ isStreaming a = false
       /\ role t = tool /\ toolName t = Some (js "Bash")
       /\ content t = js "Bash: ls -la").
Proof.
  intros (a & t & H & _ & Hc & _).
  vm_compute in H. injection H as <- <-.
  vm_compute in Hc. discriminate Hc.
Qed.

(** ** Flush points *)

(** The [exit] case never assigns to the parser. *)
Lemma exit_keeps_parser sid code parser st :
  fst (onmessage sid (exit code) (parser, st)) = parser.
Proof.
  unfold onmessage.
  destruct (createMessage _ _ _ _) as [msg st3]. reflexivity.
Qed.

(** C2 (evaluated where the code departs from it).  With the accumulation
    opened by the chunk [Hello]: an [exit] event leaves the role, the
    buffer and the message id of the parser as they were; a tool line
    resets the role and the id but leaves the buffer; and a raw line that
    arrives after the [exit] event is appended to the message that the
    event closed, which is streaming again. *)
Theorem C2_exit_and_tool_do_not_flush :
  fst demo_open
  = {| currentRole := Some assistant; buffer := js "Hello";
       currentMessageId := Some 1%nat |}
  /\ fst (onmessage demo (exit 0) demo_open) = fst demo_open
  /\ fst (processData demo (js "Bash: ls -la") demo_open)
     = {| currentRole := None; buffer := js "Hello";
          currentMessageId := None |}
  /\ messagesOf
       (snd (processData demo (js "more")
               (onmessage demo (exit 0) demo_open))) demo
     = [ {| id := 1; role := assistant;
            content := js "Hello" ++ [10] ++ js "more";
            toolName := None; toolInput := None; isStreaming := true |};
         {| id := 2; role := system;
            content := js "Process exited with code 0";
            toolName := None; toolInput := None; isStreaming := false |} ].
Proof. repeat split; vm_compute; reflexivity. Qed.

(** ** Sending input *)



(** With a null or empty session id, [sendInput] only dispatches: the
    [send] is its one call, the parser and the messages are as they were. *)
Lemma sendInput_without_session data0 h st ws :
  wsRef h = Some ws ->
  readyState ws = OPEN ->
  match sessionId h with Some sid => truthy sid | None => false end = false ->
  let r := sendInput_run data0
             {| r_hook := h; r_store := st; r_calls := [] |} in
  r_calls r = [call_send (input data0)]
  /\ parserRef (r_hook r) = parserRef h
  /\ sessionMessages (r_store r) = sessionMessages st.
Proof.
  intros Hws Hopen Hsid. cbv zeta.
  unfold sendInput_run, run_send, run_createMessage.
  cbn [r_hook r_store r_calls]. rewrite Hws.
  destruct (decide (readyState ws = OPEN)); [|contradiction].
  destruct (truthy (trim data0) && negb (str_eqb data0 [3]));
    [|cbn [r_hook r_store r_calls]; rewrite Hws; repeat split].
  cbn [createMessage r_hook].
  destruct (sessionId h) as [sid|]; [rewrite Hsid|];
    cbn [r_hook r_store r_calls]; rewrite Hws; repeat split.
Qed.

(** A blank input and the interrupt character are only dispatched: the
    [send] is the one call, the parser and the store are as they were. *)
Lemma sendInput_outside_guard data0 h st ws :
  wsRef h = Some ws ->
  readyState ws = OPEN ->
  truthy (trim data0) = false \/ data0 = [3] ->
  let r := sendInput_run data0
             {| r_hook := h; r_store := st; r_calls := [] |} in
  r_calls r = [call_send (input data0)]
  /\ parserRef (r_hook r) = parserRef h
  /\ r_store r = st.
Proof.
  intros Hws Hopen Hout. cbv zeta.
  unfold sendInput_run, run_send. cbn [r_hook r_store r_calls]. rewrite Hws.
  destruct (decide (readyState ws = OPEN)); [|contradiction].
  assert (E : truthy (trim data0) && negb (str_eqb data0 [3]) = false).
  { destruct Hout as [->| ->]; [reflexivity|].
    unfold str_eqb. rewrite bool_decide_eq_true_2 by reflexivity.
    apply andb_false_r. }
  rewrite E. cbn [r_hook r_store r_calls]. rewrite Hws. repeat split.
Qed.


End ParserProperties.

(* ===================================================================== *)
(** * Properties of the session registry and of the fanout                *)
(* ===================================================================== *)

Module RegistryProperties.
Import JS Backend.

(** ** Lookups *)

Lemma getSession_get sid m s :
  getSession sid m = Some s -> exists ref, get sid m = Some (ref, s).
Proof.
  unfold getSession. destruct (get sid m) as [[ref s']|]; simpl; [|discriminate].
  intros [= ->]. eauto.
Qed.

Lemma get_heap sid m ref s :
  get sid m = Some (ref, s) ->
  sessions m !! sid = Some ref /\ heap m !! ref = Some s.
Proof.
  unfold get. destruct (sessions m !! sid) as [r|]; [|discriminate].
  destruct (heap m !! r) eqn:E; [|discriminate]. intros [= <- <-]. auto.
Qed.

Lemma get_absent sid m : sessions m !! sid = None -> get sid m = None.
Proof. unfold get. now intros ->. Qed.

Lemma manager_emit es sv : manager (emit es sv) = manager sv.
Proof.
  revert sv. induction es as [|e es IH]; intros sv; simpl; [reflexivity|].
  rewrite IH. destruct e; simpl; try reflexivity;
    unfold forward; now destruct (sessionConnections sv !! _).
Qed.

Lemma sessionConnections_emit es sv :
  sessionConnections (emit es sv) = sessionConnections sv.
Proof.
  revert sv. induction es as [|e es IH]; intros sv; simpl; [reflexivity|].
  rewrite IH. destruct e; simpl; try reflexivity;
    unfold forward; now destruct (sessionConnections sv !! _).
Qed.

(** ** Status and process *)

Lemma consistent_empty : consistent emptyManager.
Proof. split; intros ref s; simpl; intros; discriminate. Qed.

Lemma lookup_alter_Some {A} (f : A -> A) (l : list A) i j y :
  alter f i l !! j = Some y ->
  exists x, l !! j = Some x /\ y = (if decide (i = j) then f x else x).
Proof.
  destruct (decide (i = j)) as [->|Hne].
  - rewrite list_lookup_alter_eq. destruct (l !! j); simpl; [|discriminate].
    intros [= <-]. eauto.
  - rewrite list_lookup_alter_ne by assumption. eauto.
Qed.

Lemma lookup_alter_of {A} (f : A -> A) (l : list A) i j x :
  l !! j = Some x ->
  alter f i l !! j = Some (if decide (i = j) then f x else x).
Proof.
  intros H. destruct (decide (i = j)) as [->|Hne].
  - now rewrite list_lookup_alter_eq, H.
  - now rewrite list_lookup_alter_ne.
Qed.

(** A call on a handle that changes neither the exit report nor the
    captured session keeps the registry consistent. *)
Lemma consistent_on_pty h f m :
  (forall p, p_exited (f p) = p_exited p) ->
  (forall p, p_session (f p) = p_session p) ->
  consistent m -> consistent (on_pty h f m).
Proof.
  intros He Hs [Ho Hl]. split.
  - intros ref s h0 Hr Hp. simpl in *.
    destruct (Ho ref s h0 Hr Hp) as (p & Hp0 & Hps).
    eexists. split; [apply lookup_alter_of, Hp0|].
    destruct (decide (h = h0)); [rewrite Hs|]; assumption.
  - intros ref s Hr Hrun. simpl in *.
    destruct (Hl ref s Hr Hrun) as (h0 & p & Hp & Hp0 & Hex).
    exists h0. eexists. split; [exact Hp|].
    split; [apply lookup_alter_of, Hp0|].
    destruct (decide (h = h0)); [rewrite He|]; assumption.
Qed.

(** An assignment to a session object that leaves [pty] alone and does
    not set the status to [running] keeps the registry consistent. *)
Lemma consistent_on_session ref f m :
  (forall s, pty (f s) = pty s) ->
  (forall s, status (f s) = running -> status s = running) ->
  consistent m -> consistent (on_session ref f m).
Proof.
  intros Hp Hst [Ho Hl]. split.
  - intros ref' s' h0 Hr Hpty. simpl in *.
    apply lookup_alter_Some in Hr as (s & Hr & ->).
    apply (Ho ref' s h0 Hr).
    destruct (decide (ref = ref')); [rewrite <- Hp|]; assumption.
  - intros ref' s' Hr Hrun. simpl in *.
    apply lookup_alter_Some in Hr as (s & Hr & ->).
    destruct (decide (ref = ref')) as [_|_].
    + destruct (Hl ref' s Hr (Hst _ Hrun)) as (h0 & p & H1 & H2 & H3).
      exists h0, p. rewrite Hp. auto.
    + exact (Hl ref' s Hr Hrun).
Qed.

Lemma consistent_createSession uuid n d m :
  consistent m -> consistent (snd (fst (createSession uuid n d m))).
Proof.
  intros [Ho Hl]. split.
  - intros ref s h Hr Hp. simpl in *.
    apply lookup_app_Some in Hr as [Hr|[_ Hr]]; [eauto|].
    destruct (ref - length (heap m))%nat as [|k]; simpl in Hr;
      [injection Hr as <-; discriminate | discriminate].
  - intros ref s Hr Hrun. simpl in *.
    apply lookup_app_Some in Hr as [Hr|[_ Hr]]; [exact (Hl ref s Hr Hrun)|].
    destruct (ref - length (heap m))%nat as [|k]; simpl in Hr;
      [injection Hr as <-; discriminate | discriminate].
Qed.

Lemma consistent_startSession sid o m :
  consistent m -> consistent (snd (fst (startSession sid o m))).
Proof.
  intros Hc. unfold startSession.
  destruct (get sid m) as [[ref session]|] eqn:Hg; [|exact Hc].
  destruct o; simpl.
  - destruct Hc as [Ho Hl].
    pose proof (lookup_app_l_Some (ptys m)
      [{| p_cwd := workingDir session; p_size := (120, 40);
          p_written := []; p_killed := false; p_exited := false;
          p_session := ref; p_sessionId := sid |}]) as Hold.
    split.
    + intros ref' s' h0 Hr Hp. simpl in *.
      apply lookup_alter_Some in Hr as (s & Hr & ->).
      destruct (decide (ref = ref')) as [<-|_].
      * simpl in Hp. injection Hp as <-.
        eexists. split; [apply list_lookup_middle; reflexivity|reflexivity].
      * destruct (Ho ref' s h0 Hr Hp) as (p & H1 & H2). eauto.
    + intros ref' s' Hr Hrun. simpl in *.
      apply lookup_alter_Some in Hr as (s & Hr & ->).
      destruct (decide (ref = ref')) as [<-|_].
      * exists (length (ptys m)). eexists. simpl.
        split; [reflexivity|].
        split; [apply list_lookup_middle; reflexivity|reflexivity].
      * destruct (Hl ref' s Hr Hrun) as (h0 & p & H1 & H2 & H3).
        exists h0, p. eauto.
  - apply consistent_on_session; [reflexivity| |exact Hc].
    simpl. discriminate.
Qed.

Lemma consistent_onData h d m :
  consistent m -> consistent (fst (onData h d m)).
Proof.
  intros Hc. unfold onData. destruct (ptys m !! h); [|exact Hc]. simpl.
  apply consistent_on_session; [reflexivity| |exact Hc]. auto.
Qed.

Lemma consistent_onExit h code m :
  consistent m -> consistent (fst (onExit h code m)).
Proof.
  intros [Ho Hl]. unfold onExit.
  destruct (ptys m !! h) as [p|] eqn:Hp; [|split; assumption]. simpl.
  split.
  - intros ref' s' h0 Hr Hpty. simpl in *.
    apply lookup_alter_Some in Hr as (s & Hr & ->).
    assert (Hpty' : pty s = Some h0)
      by (destruct (decide (p_session p = ref')); assumption).
    destruct (Ho ref' s h0 Hr Hpty') as (p0 & H1 & H2).
    eexists. split; [apply lookup_alter_of, H1|].
    destruct (decide (h = h0)); assumption.
  - intros ref' s' Hr Hrun. simpl in *.
    apply lookup_alter_Some in Hr as (s & Hr & ->).
    destruct (decide (p_session p = ref')) as [_|Hne]; [discriminate|].
    destruct (Hl ref' s Hr Hrun) as (h0 & p0 & H1 & H2 & H3).
    exists h0. eexists. split; [exact H1|].
    split; [apply lookup_alter_of, H2|].
    destruct (decide (h = h0)) as [->|_]; [|exact H3].
    destruct (Ho ref' s h0 Hr H1) as (p1 & H4 & H5). congruence.
Qed.

Lemma consistent_sendInput sid d m :
  consistent m -> consistent (snd (sendInput sid d m)).
Proof.
  intros Hc. unfold sendInput.
  destruct (get sid m) as [[ref session]|]; [|exact Hc].
  destruct (pty session); [|exact Hc].
  now apply consistent_on_pty.
Qed.

Lemma consistent_resizeSession sid c r m :
  consistent m -> consistent (snd (resizeSession sid c r m)).
Proof.
  intros Hc. unfold resizeSession.
  destruct (get sid m) as [[ref session]|]; [|exact Hc].
  destruct (pty session); [|exact Hc].
  now apply consistent_on_pty.
Qed.

Lemma consistent_stopSession sid m :
  consistent m -> consistent (snd (fst (stopSession sid m))).
Proof.
  intros Hc. unfold stopSession.
  destruct (get sid m) as [[ref session]|]; [|exact Hc].
  destruct (pty session); [|exact Hc]. simpl.
  apply consistent_on_session; [reflexivity|simpl; discriminate|].
  now apply consistent_on_pty.
Qed.

Lemma consistent_deleteSession sid m :
  consistent m -> consistent (snd (fst (deleteSession sid m))).
Proof.
  intros Hc. unfold deleteSession.
  destruct (get sid m) as [[ref session]|]; [|exact Hc]. simpl.
  assert (H : consistent (match pty session with
                          | Some h => on_pty h pty_kill m
                          | None => m end))
    by (destruct (pty session); [now apply consistent_on_pty|exact Hc]).
  exact H.
Qed.

Lemma consistent_step sv sv' :
  step sv sv' -> consistent (manager sv) -> consistent (manager sv').
Proof.
  intros Hstep Hc. destruct Hstep.
  - exact Hc.
  - unfold onMessage. destruct (connections sv !! ws) as [c|]; [|exact Hc].
    destruct message; try exact Hc;
      destruct (subscribed c); try exact Hc; simpl.
    + now apply consistent_sendInput.
    + now apply consistent_resizeSession.
  - unfold onClose. now destruct (connections sv !! ws).
  - unfold postSession.
    pose proof (consistent_createSession uuid name0 dir _ Hc) as H.
    destruct (createSession uuid name0 dir (manager sv)) as [[r m] es].
    now rewrite manager_emit.
  - unfold postStart.
    pose proof (consistent_startSession sid o _ Hc) as H.
    destruct (startSession sid o (manager sv)) as [[r m] es].
    simpl. now rewrite manager_emit.
  - unfold postStop.
    pose proof (consistent_stopSession sid _ Hc) as H.
    destruct (stopSession sid (manager sv)) as [[r m] es].
    simpl. now rewrite manager_emit.
  - unfold deleteRoute.
    pose proof (consistent_deleteSession sid _ Hc) as H.
    destruct (deleteSession sid (manager sv)) as [[r m] es].
    simpl. now rewrite manager_emit.
  - unfold ptyData.
    pose proof (consistent_onData h d _ Hc) as H'.
    destruct (onData h d (manager sv)) as [m es].
    now rewrite manager_emit.
  - unfold ptyExit.
    pose proof (consistent_onExit h exitCode _ Hc) as H'.
    destruct (onExit h exitCode (manager sv)) as [m es].
    now rewrite manager_emit.
Qed.

Lemma consistent_reachable sv : reachable sv -> consistent (manager sv).
Proof.
  induction 1 as [|sv sv' _ IH Hstep]; [apply consistent_empty|].
  exact (consistent_step _ _ Hstep IH).
Qed.

(** a decidable fact about a closed term, by evaluation *)
Ltac decide_by_compute :=
  refine (bool_decide_unpack _ _); vm_compute; exact I.

(** ** The scenarios are reachable *)

Lemma connected_0_subscribed : connected 0 subscribed_server.
Proof. eexists. split; [vm_compute; reflexivity|reflexivity]. Qed.

Lemma connected_0_fresh : connected 0 (onConnection started_server).
Proof. eexists. split; [vm_compute; reflexivity|reflexivity]. Qed.

Lemma reachable_created : reachable created_server.
Proof. eapply reachable_step; [apply reachable_initial|apply step_create]. Qed.

Lemma reachable_started : reachable started_server.
Proof. eapply reachable_step; [apply reachable_created|apply step_start]. Qed.

Lemma reachable_stopped : reachable stopped_server.
Proof. eapply reachable_step; [apply reachable_started|apply step_stop]. Qed.

Lemma reachable_subscribed : reachable subscribed_server.
Proof.
  eapply reachable_step; [|apply step_message, connected_0_fresh].
  eapply reachable_step; [apply reachable_started|apply step_connection].
Qed.

Lemma reachable_resubscribed : reachable resubscribed_server.
Proof.
  eapply reachable_step; [apply reachable_subscribed|].
  apply step_message, connected_0_subscribed.
Qed.

(** ** Status and process (C4) *)

(** C4 (as the code behaves).  In every reachable state, a registered
    session whose status is [running] has a non-null process field, and
    that process has not reported exit. *)
Theorem C4_running_has_live_process sv sid s :
  reachable sv ->
  getSession sid (manager sv) = Some s ->
  status s = running ->
  live (manager sv) s.
Proof.
  intros Hr Hg Hrun.
  destruct (getSession_get _ _ _ Hg) as (ref & Hget).
  destruct (get_heap _ _ _ _ Hget) as [_ Hheap].
  exact (proj2 (consistent_reachable sv Hr) ref s Hheap Hrun).
Qed.

Lemma C4_running_has_live_process_witness :
  live (manager started_server)
    {| id := s1; name := js "demo"; workingDir := js "/tmp";
       pty := Some 0%nat; status := running; logs := [] |}.
Proof.
  apply (C4_running_has_live_process started_server s1).
  - apply reachable_started.
  - vm_compute. reflexivity.
  - reflexivity.
Defined.

(** C4 as stated fails in the other direction: right after the stop route
    the status is [stopped] while the process field is non-null and the
    killed process has not reported exit yet. *)
Lemma C4_stopped_with_live_process :
  ~ (forall sv sid s,
       reachable sv -> getSession sid (manager sv) = Some s ->
       (status s = running <-> live (manager sv) s)).
Proof.
  intros H.
  specialize (H stopped_server s1
                {| id := s1; name := js "demo"; workingDir := js "/tmp";
                   pty := Some 0%nat; status := stopped; logs := [] |}
                reachable_stopped).
  assert (Hrun : stopped = running); [|discriminate Hrun].
  apply H; [vm_compute; reflexivity|].
  exists 0%nat. eexists. split; [reflexivity|].
  split; [vm_compute; reflexivity|reflexivity].
Qed.

(** ** Input and resize without a process (C7) *)

(** C7 (as the code behaves).  When the id is unknown or the process
    field of its session is null (the session was never started),
    [sendInput] and [resizeSession] return false and leave the manager as
    it was. *)
Theorem C7_no_process_returns_false m sid d cols rows :
  (forall s, getSession sid m = Some s -> pty s = None) ->
  sendInput sid d m = (false, m)
  /\ resizeSession sid cols rows m = (false, m).
Proof.
  intros H. unfold sendInput, resizeSession.
  destruct (get sid m) as [[ref s]|] eqn:Hg; [|auto].
  rewrite (H s); [auto|]. unfold getSession. now rewrite Hg.
Qed.

Lemma C7_no_process_returns_false_witness :
  sendInput s1 (js "ls") (manager created_server)
  = (false, manager created_server)
  /\ resizeSession s1 80 24 (manager created_server)
     = (false, manager created_server).
Proof.
  apply (C7_no_process_returns_false (manager created_server) s1).
  intros s Hs. vm_compute in Hs. injection Hs as <-. reflexivity.
Defined.

(** C7 as stated fails: after an explicit stop the status is [stopped],
    yet [resizeSession] and [sendInput] return true and reach the handle
    of the killed process. *)
Lemma C7_stopped_session_accepts_input :
  let m := manager stopped_server in
  status <$> getSession s1 m = Some stopped
  /\ fst (resizeSession s1 80 24 m) = true
  /\ fst (sendInput s1 (js "ls") m) = true
  /\ p_written <$> ptys (snd (sendInput s1 (js "ls") m)) !! 0%nat
     = Some [js "ls"]
  /\ ~ (sendInput s1 (js "ls") m = (false, m)
        /\ resizeSession s1 80 24 m = (false, m)).
Proof.
  repeat split; try (vm_compute; reflexivity).
  intros [H _]. apply (f_equal fst) in H. vm_compute in H. discriminate H.
Qed.

(** ** Start after a spawn failure (C9) *)

(** C9.  When [pty.spawn] throws for a registered session, [startSession]
    returns false, the session is still registered under the same id with
    status [error], and a later [startSession] on that id whose spawn
    succeeds returns true and leaves the session [running] with a live
    process. *)
Theorem C9_failed_start_can_be_retried m sid s :
  getSession sid m = Some s ->
  let r1 := startSession sid spawn_failed m in
  let m1 := snd (fst r1) in
  let r2 := startSession sid spawned m1 in
  let m2 := snd (fst r2) in
  fst (fst r1) = false
  /\ sessions m1 = sessions m
  /\ getSession sid m1 = Some (set_status error s)
  /\ fst (fst r2) = true
  /\ (exists s2, getSession sid m2 = Some s2
                 /\ status s2 = running /\ id s2 = id s /\ live m2 s2).
Proof.
  intros Hg. destruct (getSession_get _ _ _ Hg) as (ref & Hget).
  destruct (get_heap _ _ _ _ Hget) as [Hs Hh].
  set (m1 := on_session ref (set_status error) m).
  assert (E1 : startSession sid spawn_failed m
               = (false, m1, [session_error sid]))
    by (unfold startSession; now rewrite Hget).
  assert (Hget1 : get sid m1 = Some (ref, set_status error s)).
  { unfold get, m1. simpl. rewrite Hs.
    now rewrite (lookup_alter_of _ _ ref ref s Hh), decide_True. }
  cbv zeta. rewrite E1. cbn [fst snd].
  unfold startSession. rewrite Hget1. cbn [fst snd].
  split; [reflexivity|]. split; [reflexivity|].
  split; [unfold getSession; now rewrite Hget1|].
  split; [reflexivity|].
  destruct (get_heap _ _ _ _ Hget1) as [Hs1 Hh1].
  eexists. split.
  - unfold getSession, get. cbn [sessions heap on_session with_heap with_ptys].
    rewrite Hs1.
    rewrite (lookup_alter_of _ _ ref ref _ Hh1), decide_True by reflexivity.
    reflexivity.
  - simpl. repeat split.
    exists (length (ptys m)). eexists.
    split; [reflexivity|].
    split; [apply list_lookup_middle; reflexivity|reflexivity].
Qed.

Lemma C9_failed_start_can_be_retried_witness :
  let r1 := startSession s1 spawn_failed (manager created_server) in
  let m1 := snd (fst r1) in
  let r2 := startSession s1 spawned m1 in
  let m2 := snd (fst r2) in
  fst (fst r1) = false
  /\ sessions m1 = sessions (manager created_server)
  /\ getSession s1 m1
     = Some (set_status error
               {| id := s1; name := js "demo"; workingDir := js "/tmp";
                  pty := None; status := stopped; logs := [] |})
  /\ fst (fst r2) = true
  /\ (exists s2, getSession s1 m2 = Some s2
                 /\ status s2 = running /\ id s2 = s1 /\ live m2 s2).
Proof.
  apply (C9_failed_start_can_be_retried (manager created_server) s1
           {| id := s1; name := js "demo"; workingDir := js "/tmp";
              pty := None; status := stopped; logs := [] |}).
  vm_compute. reflexivity.
Defined.

(** ** Deletion (C8) *)

(** Every operation on an id that is not registered fails without
    changing the manager. *)
Lemma not_found m sid :
  sessions m !! sid = None ->
  (forall o, startSession sid o m = (false, m, []))
  /\ stopSession sid m = (false, m, [])
  /\ (forall d, sendInput sid d m = (false, m))
  /\ (forall cols rows, resizeSession sid cols rows m = (false, m))
  /\ (forall limit, getLogs sid limit m = [])
  /\ deleteSession sid m = (false, m, []).
Proof.
  intros H%get_absent.
  unfold startSession, stopSession, sendInput, resizeSession, getLogs,
    deleteSession.
  rewrite H. repeat split.
Qed.

Lemma sessions_emit es m sv :
  sessions (manager (emit es (with_manager m sv))) = sessions m.
Proof. now rewrite manager_emit. Qed.

(** An id that is not registered stays unregistered until [createSession]
    draws it again. *)
Lemma absent_step sv sv' sid :
  step sv sv' ->
  sessions (manager sv) !! sid = None ->
  sessions (manager sv') !! sid = None
  \/ exists name0 dir, sv' = postSession sid name0 dir sv.
Proof.
  intros Hstep Habs. destruct Hstep.
  - now left.
  - left. unfold onMessage. destruct (connections sv !! ws) as [c|]; [|exact Habs].
    destruct message; try exact Habs;
      destruct (subscribed c) as [sid'|]; try exact Habs; simpl.
    + unfold sendInput. destruct (get sid' (manager sv)) as [[ref s]|]; [|exact Habs].
      now destruct (pty s).
    + unfold resizeSession.
      destruct (get sid' (manager sv)) as [[ref s]|]; [|exact Habs].
      now destruct (pty s).
  - left. unfold onClose. now destruct (connections sv !! ws).
  - destruct (decide (uuid = sid)) as [->|Hne]; [right; eauto|left].
    unfold postSession, createSession. rewrite sessions_emit. simpl.
    now rewrite lookup_insert_ne.
  - left. unfold postStart, startSession.
    destruct (get sid0 (manager sv)) as [[ref s]|];
      [destruct o|]; simpl; rewrite ?manager_emit; exact Habs.
  - left. unfold postStop, stopSession.
    destruct (get sid0 (manager sv)) as [[ref s]|];
      [destruct (pty s)|]; simpl; rewrite ?manager_emit; exact Habs.
  - left. unfold deleteRoute, deleteSession.
    destruct (get sid0 (manager sv)) as [[ref s]|]; simpl;
      rewrite ?manager_emit; [|exact Habs]. simpl.
    destruct (decide (sid0 = sid)) as [->|Hne];
      [apply lookup_delete_eq|rewrite lookup_delete_ne by assumption].
    now destruct (pty s).
  - left. unfold ptyData, onData.
    destruct (ptys (manager sv) !! h); rewrite ?manager_emit; exact Habs.
  - left. unfold ptyExit, onExit.
    destruct (ptys (manager sv) !! h); rewrite ?manager_emit; exact Habs.
Qed.

(** C8 (as the code behaves).  When the delete route succeeds, the
    session is no longer registered, the process its [pty] field held (if
    it held one) has been killed, and [startSession], [stopSession], [sendInput],
    [resizeSession] and a second [deleteSession] on that id return false
    without changing anything, while [getLogs] returns the empty sequence.
    The routing table is not touched by the deletion. *)
Theorem C8_deleted_session_is_not_found sv sid :
  fst (deleteRoute sid sv) = true ->
  let sv' := snd (deleteRoute sid sv) in
  let m' := manager sv' in
  getSession sid m' = None
  /\ (forall s h p, getSession sid (manager sv) = Some s -> pty s = Some h ->
        ptys m' !! h = Some p -> p_killed p = true)
  /\ sessionConnections sv' = sessionConnections sv
  /\ (forall o, startSession sid o m' = (false, m', []))
  /\ stopSession sid m' = (false, m', [])
  /\ (forall d, sendInput sid d m' = (false, m'))
  /\ (forall cols rows, resizeSession sid cols rows m' = (false, m'))
  /\ (forall limit, getLogs sid limit m' = [])
  /\ deleteSession sid m' = (false, m', []).
Proof.
  unfold deleteRoute, deleteSession.
  destruct (get sid (manager sv)) as [[ref session]|] eqn:Hget;
    [|simpl; discriminate].
  intros _. cbv zeta. cbn [fst snd emit fold_left listen].
  set (m1 := match pty session with
             | Some h => on_pty h pty_kill (manager sv)
             | None => manager sv
             end).
  cbn [manager sessionConnections with_manager].
  set (m' := {| sessions := delete sid (sessions m1); heap := heap m1;
                ptys := ptys m1 |}).
  assert (Hnone : get sid m' = None)
    by (apply get_absent; simpl; apply lookup_delete_eq).
  split; [unfold getSession; now rewrite Hnone|].
  split.
  { intros s h p Hs Hp Hl. unfold getSession in Hs. rewrite Hget in Hs.
    injection Hs as <-. subst m' m1. rewrite Hp in Hl. simpl in Hl.
    apply lookup_alter_Some in Hl as (p0 & _ & ->).
    destruct (decide (h = h)); [reflexivity|contradiction]. }
  split; [reflexivity|].
  apply not_found. simpl. apply lookup_delete_eq.
Qed.

Lemma C8_deleted_session_is_not_found_witness :
  let m' := manager deleted_server in
  getSession s1 m' = None
  /\ (forall s h p,
        getSession s1 (manager subscribed_server) = Some s ->
        pty s = Some h -> ptys m' !! h = Some p -> p_killed p = true)
  /\ sessionConnections deleted_server = sessionConnections subscribed_server
  /\ (forall o, startSession s1 o m' = (false, m', []))
  /\ stopSession s1 m' = (false, m', [])
  /\ (forall d, sendInput s1 d m' = (false, m'))
  /\ (forall cols rows, resizeSession s1 cols rows m' = (false, m'))
  /\ (forall limit, getLogs s1 limit m' = [])
  /\ deleteSession s1 m' = (false, m', []).
Proof.
  apply (C8_deleted_session_is_not_found subscribed_server s1).
  vm_compute. reflexivity.
Defined.

(** C8 as stated fails for the fanout: after the delete route has
    succeeded, the subscriber set of the deleted id is still in the
    routing table with the socket in it, and the exit of the killed
    process is still forwarded to that socket. *)
Lemma C8_subscriber_set_survives_delete :
  fst (deleteRoute s1 subscribed_server) = true
  /\ 0%nat ∈ subscribers s1 deleted_server
  /\ sessionConnections deleted_server !! s1 <> None
  /\ sent <$> connections (ptyExit 0 0 deleted_server) !! 0%nat
     = Some [logs_message []; exit_message 0].
Proof.
  split; [vm_compute; reflexivity|].
  split; [decide_by_compute|].
  split; [|vm_compute; reflexivity].
  intros H. vm_compute in H. discriminate H.
Qed.

(** [startSession] overwrites [session.pty] without killing the process
    it held: when a running session is started again and then deleted,
    the process of the second start is killed and the process of the
    first start is left as it was, neither killed nor exited. *)
Lemma replaced_process_survives_delete :
  reachable restarted_server
  /\ fst (deleteRoute s1 restarted_server) = true
  /\ pty <$> getSession s1 (manager restarted_server) = Some (Some 1%nat)
  /\ p_killed <$> ptys (manager (snd (deleteRoute s1 restarted_server)))
                    !! 1%nat
     = Some true
  /\ (fun p => (p_killed p, p_exited p))
       <$> ptys (manager (snd (deleteRoute s1 restarted_server))) !! 0%nat
     = Some (false, false).
Proof.
  split; [eapply reachable_step; [apply reachable_started|apply step_start]|].
  repeat split; vm_compute; reflexivity.
Qed.

(** ** The routing table (C3) *)

Lemma forward_nonmember sid msg sv ws :
  ws ∉ subscribers sid sv ->
  connections (forward sid msg sv) !! ws = connections sv !! ws.
Proof.
  unfold subscribers, forward. intros H.
  destruct (sessionConnections sv !! sid) as [set|]; [|reflexivity].
  simpl in *. rewrite list_lookup_imap.
  destruct (connections sv !! ws); [|reflexivity]. simpl.
  now rewrite bool_decide_eq_false_2.
Qed.

Lemma remove_subscriber_spec sid ws table :
  ws ∉ default ∅ (remove_subscriber sid ws table !! sid).
Proof.
  unfold remove_subscriber. rewrite lookup_alter_eq.
  destruct (table !! sid) as [set|]; simpl; [|apply not_elem_of_empty].
  intros [_ Hn]%elem_of_difference. apply Hn, elem_of_singleton. reflexivity.
Qed.

(** [unsubscribe] and [close] remove the socket from the set of the
    session it is currently subscribed to. *)
Lemma unsubscribe_removes sv ws c sid :
  connections sv !! ws = Some c -> subscribed c = Some sid ->
  ws ∉ subscribers sid (onMessage ws unsubscribe sv).
Proof.
  intros Hc Hs. unfold onMessage, subscribers. rewrite Hc, Hs. simpl.
  apply remove_subscriber_spec.
Qed.

Lemma close_removes sv ws c sid :
  connections sv !! ws = Some c -> subscribed c = Some sid ->
  ws ∉ subscribers sid (onClose ws sv).
Proof.
  intros Hc Hs. unfold onClose, subscribers. rewrite Hc, Hs. simpl.
  apply remove_subscriber_spec.
Qed.

(** [subscribe] adds the socket to the set of the new session and takes
    it out of no other set. *)
Lemma subscribe_keeps_membership sv ws c sid sid' :
  connections sv !! ws = Some c ->
  ws ∈ subscribers sid sv ->
  ws ∈ subscribers sid (onMessage ws (subscribe sid') sv)
  /\ ws ∈ subscribers sid' (onMessage ws (subscribe sid') sv).
Proof.
  intros Hc Hin. unfold onMessage, subscribers in *. rewrite Hc. simpl.
  destruct (decide (sid' = sid)) as [->|Hne].
  - destruct (sessionConnections sv !! sid) as [set|] eqn:E; simpl in *;
      rewrite lookup_insert_eq; simpl; split; set_solver.
  - destruct (sessionConnections sv !! sid') as [set|] eqn:E; simpl;
      rewrite lookup_insert_eq, lookup_insert_ne by assumption;
      simpl; split; try assumption; set_solver.
Qed.

(** C3 (evaluated where the code departs from it).  A socket that
    subscribes to [s1] and then to [s2] is in the subscriber sets of both
    sessions, in a reachable state; output of [s1] is still sent to it
    although its current subscription is [s2]; and neither [unsubscribe]
    nor the close of the socket removes it from the set of [s1]. *)
Theorem C3_resubscribe_keeps_old_subscription :
  reachable resubscribed_server
  /\ subscribedSessionId <$> connections resubscribed_server !! 0%nat
     = Some (Some s2)
  /\ 0%nat ∈ subscribers s1 resubscribed_server
  /\ 0%nat ∈ subscribers s2 resubscribed_server
  /\ sent <$> connections (ptyData 0 (js "out") resubscribed_server) !! 0%nat
     = Some [logs_message []; logs_message [];
             data_message (js "out") stdout]
  /\ 0%nat ∈ subscribers s1 (onMessage 0 unsubscribe resubscribed_server)
  /\ 0%nat ∈ subscribers s1 (onClose 0 resubscribed_server).
Proof.
  split; [apply reachable_resubscribed|].
  repeat split; try (vm_compute; reflexivity);
    decide_by_compute.
Qed.

End RegistryProperties.



(* ===================================================================== *)
(** * Further properties of the store and of the parser                   *)
(* ===================================================================== *)

Module FrontendExtras.
Import JS Frontend MatcherProperties ParserProperties.

#[local] Arguments parseClaudeOutput : simpl never.
#[local] Arguments some_test : simpl never.
#[local] Arguments test : simpl never.
#[local] Arguments trim : simpl never.
#[local] Arguments exec : simpl never.
#[local] Arguments replace_first : simpl never.

(** ** Sanitizing *)

Lemma replace_all_from_class total p : forall s fuel,
  (length s < fuel)%nat ->
  replace_all_from total (Class p) fuel s
  = List.filter (fun c => negb (p c)) s.
Proof.
  induction s as [|c t IH]; intros [|fuel] H; simpl in *; try lia.
  - reflexivity.
  - destruct (p c); simpl.
    + destruct (Nat.ltb_spec (length t) (S (length t))); [|lia].
      apply IH. lia.
    + f_equal. apply IH. lia.
Qed.

(** Replacing every code unit of a class by nothing is filtering. *)
Lemma replace_all_class p s :
  replace_all (Class p) s = List.filter (fun c => negb (p c)) s.
Proof. unfold replace_all. apply replace_all_from_class. lia. Qed.

(** X1.  Whatever the chunk, every code unit of the text that
    [processData] splits into lines is a tab, a line feed, a carriage
    return, or has code 32 or above: the code units 0 to 8, 11, 12 and 14
    to 31, the escape character among them, are all removed. *)
Theorem stripEscapes_no_control data c :
  In c (stripEscapes data) ->
  (in_range 0 8 c || (c =? 11) || (c =? 12) || in_range 14 31 c) = false
  /\ c <> 27
  /\ (c = 9 \/ c = 10 \/ c = 13 \/ 32 <= c)%N.
Proof.
  unfold stripEscapes. cbv zeta. rewrite replace_all_class.
  intros [_ H]%filter_In. apply negb_true_iff in H. split; [exact H|].
  split; [intros ->; vm_compute in H; discriminate H|].
  unfold in_range in H.
  repeat match type of H with
         | (_ || _) = false => apply orb_false_iff in H as [H ?]
         end.
  repeat match goal with
         | K : (_ && _) = false |- _ =>
             apply andb_false_iff in K; destruct K as [K|K]
         | K : (_ <=? _)%N = false |- _ => apply N.leb_gt in K
         | K : (_ =? _)%N = false |- _ => apply N.eqb_neq in K
         end; lia.
Qed.

Lemma stripEscapes_no_control_witness :
  (in_range 0 8 72 || (72 =? 11) || (72 =? 12) || in_range 14 31 72) = false
  /\ 72 <> 27
  /\ (72 = 9 \/ 72 = 10 \/ 72 = 13 \/ 32 <= 72)%N.
Proof.
  apply (stripEscapes_no_control ([27] ++ js "[31mHi") 72).
  vm_compute. left. reflexivity.
Defined.

(** the expression stops at code 31: the delete character and the code
    units 128 to 159 pass *)
Lemma stripEscapes_keeps_delete :
  stripEscapes [127; 72; 155] = [127; 72; 155].
Proof. vm_compute. reflexivity. Qed.

(** ** Classification *)

Lemma parse_content data :
  p_type (parseClaudeOutput data) = t_tool
  \/ p_type (parseClaudeOutput data) = t_system
  \/ p_type (parseClaudeOutput data) = t_raw ->
  p_content (parseClaudeOutput data) = data.
Proof.
  unfold parseClaudeOutput. cbv zeta.
  destruct (length (trim data) <? 2)%nat;
    [cbn; intros [H|[H|H]]; discriminate H|].
  destruct (some_test skipPatterns (trim data));
    [cbn; intros [H|[H|H]]; discriminate H|].
  destruct (test _ data || startsWith data (js "You:")
            || startsWith data (js "Human:")).
  { destruct (truthy _); cbn; intros [H|[H|H]]; discriminate H. }
  destruct (startsWith data (js "Claude:")
            || startsWith data (js "Assistant:"));
    [cbn; intros [H|[H|H]]; discriminate H|].
  destruct (firstToolMatch toolPatterns data); [reflexivity|].
  destruct (includes data (js "Session started") || _ || _ || _);
    reflexivity.
Qed.

(** X2.  A line that starts with a prompt marker and a space, or with
    [You:] or [Human:], is classified ['user'] or ['skip'] whatever
    follows: the prompt test comes before the tool and system tests. *)
Theorem prompt_line_is_user_or_skip data :
  test (Bol +++ promptMarker +++ space)%re data
  || startsWith data (js "You:") || startsWith data (js "Human:") = true ->
  p_type (parseClaudeOutput data) = t_user
  \/ p_type (parseClaudeOutput data) = t_skip.
Proof.
  intros H. unfold parseClaudeOutput. cbv zeta.
  destruct (length (trim data) <? 2)%nat; [now right|].
  destruct (some_test skipPatterns (trim data)); [now right|].
  rewrite H. destruct (truthy _); [now left|now right].
Qed.

Lemma prompt_line_is_user_or_skip_witness :
  p_type (parseClaudeOutput (js "You: Bash: ls")) = t_user
  \/ p_type (parseClaudeOutput (js "You: Bash: ls")) = t_skip.
Proof.
  apply (prompt_line_is_user_or_skip (js "You: Bash: ls")).
  vm_compute. reflexivity.
Defined.

(** X3.  A system line adds one closed system message whose content is
    the trimmed line, and leaves the parser, hence any open accumulation,
    as it was. *)
Theorem system_line_standalone sid parser st line :
  classified t_system line = true ->
  let ps' := processLine sid (parser, st) line in
  fst ps' = parser
  /\ messageCounter (snd ps') = S (messageCounter st)
  /\ messagesOf (snd ps') sid
     = messagesOf st sid
       ++ [{| id := S (messageCounter st); role := system;
              content := trim line; toolName := None; toolInput := None;
              isStreaming := false |}].
Proof.
  intros (H1 & H2 & H3 & H4)%classified_inv.
  unfold processLine. rewrite H1, H2, H3, H4. cbn [fst snd createMessage].
  rewrite messagesOf_addMessage. cbn.
  rewrite parse_content by auto. auto.
Qed.

Lemma system_line_standalone_witness :
  let ps' := processLine demo demo_open (js "Error: boom") in
  fst ps' = fst demo_open
  /\ messageCounter (snd ps') = S (messageCounter (snd demo_open))
  /\ messagesOf (snd ps') demo
     = messagesOf (snd demo_open) demo
       ++ [{| id := S (messageCounter (snd demo_open)); role := system;
              content := trim (js "Error: boom"); toolName := None;
              toolInput := None; isStreaming := false |}].
Proof.
  apply (system_line_standalone demo (fst demo_open) (snd demo_open)
           (js "Error: boom")).
  vm_compute. reflexivity.
Defined.

(** X4.  A tool line closes the open assistant message, if there is one,
    and adds one closed tool message whose content is the trimmed line;
    no accumulation is open afterwards. *)
Theorem tool_line_message sid parser st line :
  classified t_tool line = true ->
  let ps' := processLine sid (parser, st) line in
  openMessage (fst ps') = None
  /\ messageCounter (snd ps') = S (messageCounter st)
  /\ messagesOf (snd ps') sid
     = match openMessage parser with
       | Some mid =>
           map (fun msg => if decide (id msg = mid)
                           then spread msg (streaming false) else msg)
             (messagesOf st sid)
       | None => messagesOf st sid
       end
       ++ [{| id := S (messageCounter st); role := tool;
              content := trim line;
              toolName := p_toolName (parseClaudeOutput (trim line));
              toolInput := p_toolInput (parseClaudeOutput (trim line));
              isStreaming := false |}].
Proof.
  intros (H1 & H2 & H3 & H4)%classified_inv.
  unfold processLine. rewrite H1, H2, H3, H4.
  destruct (openMessage parser) as [mid|];
    cbn [fst snd createMessage]; rewrite messagesOf_addMessage;
    rewrite parse_content by auto;
    (split; [reflexivity|]); (split; [reflexivity|]); f_equal;
    try (cbn; now destruct (p_toolName _), (p_toolInput _)).
  unfold messagesOf, updateMessage. cbn. now rewrite lookup_insert_eq.
Qed.

Lemma tool_line_message_witness :
  let ps' := processLine demo demo_open (js "Bash: ls -la") in
  openMessage (fst ps') = None
  /\ messageCounter (snd ps') = S (messageCounter (snd demo_open))
  /\ messagesOf (snd ps') demo
     = match openMessage (fst demo_open) with
       | Some mid =>
           map (fun msg => if decide (id msg = mid)
                           then spread msg (streaming false) else msg)
             (messagesOf (snd demo_open) demo)
       | None => messagesOf (snd demo_open) demo
       end
       ++ [{| id := S (messageCounter (snd demo_open)); role := tool;
              content := trim (js "Bash: ls -la");
              toolName :=
                p_toolName (parseClaudeOutput (trim (js "Bash: ls -la")));
              toolInput :=
                p_toolInput (parseClaudeOutput (trim (js "Bash: ls -la")));
              isStreaming := false |}].
Proof.
  apply (tool_line_message demo (fst demo_open) (snd demo_open)
           (js "Bash: ls -la")).
  vm_compute. reflexivity.
Defined.

(** ** What the parser does to the store *)

(** A property of the store that [updateMessage] and the addition of a
    newly created message keep is kept by a turn of the loop. *)
Lemma processLine_invariant (P : Store -> Prop) sid :
  (forall mid u st, P st -> P (updateMessage sid mid u st)) ->
  (forall r c o st, P st ->
     P (addMessage sid (fst (createMessage r c o st))
          (snd (createMessage r c o st)))) ->
  forall parser st line,
    P st -> P (snd (processLine sid (parser, st) line)).
Proof.
  intros Hupd Hadd parser st line H. unfold processLine.
  destruct (negb (truthy (trim line))); [exact H|].
  destruct (some_test uiPatterns (trim line)); [exact H|].
  destruct ((length (trim line) <? 3)%nat
            && negb (test (Class is_alpha) (trim line))); [exact H|].
  destruct (p_type (parseClaudeOutput (trim line)));
    destruct (openMessage parser) as [mid|]; cbn [snd];
    try exact H; try (apply Hupd; exact H).
  - exact (Hadd assistant line (streaming true) st H).
  - refine (Hadd tool _ _ (updateMessage sid mid (streaming false) st) _).
    apply Hupd, H.
  - refine (Hadd tool _ _ st H).
  - refine (Hadd system _ no_updates st H).
  - refine (Hadd system _ no_updates st H).
  - exact (Hadd assistant line (streaming true) st H).
Qed.

Lemma processData_invariant (P : Store -> Prop) sid :
  (forall mid u st, P st -> P (updateMessage sid mid u st)) ->
  (forall r c o st, P st ->
     P (addMessage sid (fst (createMessage r c o st))
          (snd (createMessage r c o st)))) ->
  forall chunk parser st,
    P st -> P (snd (processData sid chunk (parser, st))).
Proof.
  intros Hupd Hadd chunk. unfold processData.
  induction (split_nl (stripEscapes chunk)) as [|l lines IH];
    intros parser st H; [exact H|].
  cbn [fold_left].
  pose proof (processLine_invariant P sid Hupd Hadd parser st l H) as H1.
  destruct (processLine sid (parser, st) l) as [parser1 st1]. now apply IH.
Qed.

Lemma continues_refl sid st : continues sid st st.
Proof. repeat split; auto. Qed.

Lemma continues_trans sid st1 st2 st3 :
  continues sid st1 st2 -> continues sid st2 st3 -> continues sid st1 st3.
Proof.
  intros (A1 & A2 & A3 & A4 & A5) (B1 & B2 & B3 & B4 & B5).
  repeat split; try congruence; try lia.
  - etransitivity; eassumption.
  - intros sid' Hne. rewrite B2, A2 by assumption. reflexivity.
Qed.

Lemma continues_updateMessage sid mid u st :
  continues sid st (updateMessage sid mid u st).
Proof.
  repeat split; auto.
  - rewrite messagesOf_updateMessage, map_map.
    erewrite map_ext; [reflexivity|].
    intros m. simpl. now destruct (decide (id m = mid)).
  - intros sid' Hne. unfold messagesOf, updateMessage. simpl.
    now rewrite lookup_insert_ne.
Qed.

Lemma continues_create_add sid r c o st :
  continues sid st
    (addMessage sid (fst (createMessage r c o st))
       (snd (createMessage r c o st))).
Proof.
  repeat split; auto.
  - rewrite messagesOf_addMessage, map_app. now apply prefix_app_r.
  - intros sid' Hne. unfold messagesOf, addMessage. simpl.
    now rewrite lookup_insert_ne.
  - simpl. lia.
Qed.

(** X5.  Whatever the chunk, [processData] never removes or reorders a
    message of the session and never changes the id or the role of one:
    the earlier messages are a prefix of the later ones; the messages of
    the other sessions, the session records and the logs are untouched;
    the counter does not go back. *)
Theorem processData_continues sid chunk parser st :
  continues sid st (snd (processData sid chunk (parser, st))).
Proof.
  apply (processData_invariant (continues sid st) sid).
  - intros mid u st' H. eapply continues_trans; [exact H|].
    apply continues_updateMessage.
  - intros r c o st' H. eapply continues_trans; [exact H|].
    apply continues_create_add.
  - apply continues_refl.
Qed.

(** ** Message ids *)

Lemma distinct_updateMessage sid mid u st :
  distinct_ids st -> distinct_ids (updateMessage sid mid u st).
Proof.
  intros H sid'. destruct (decide (sid = sid')) as [<-|Hne].
  - rewrite messagesOf_updateMessage, map_map.
    erewrite map_ext; [apply H|].
    intros m. simpl. now destruct (decide (id m = mid)).
  - unfold messagesOf, updateMessage. simpl.
    rewrite lookup_insert_ne by assumption. apply H.
Qed.

Lemma distinct_create_add sid r c o st :
  well_numbered st -> distinct_ids st ->
  distinct_ids (addMessage sid (fst (createMessage r c o st))
                  (snd (createMessage r c o st))).
Proof.
  intros Hw Hd sid'. destruct (decide (sid = sid')) as [<-|Hne].
  - rewrite messagesOf_addMessage, map_app. apply NoDup_app.
    split; [apply Hd|]. split; [|apply NoDup_singleton].
    intros x Hx ->%list_elem_of_singleton.
    apply list_elem_of_fmap in Hx as (m & Hm & Hin).
    pose proof (Hw sid) as Hall. unfold ids_generated in Hall.
    rewrite Forall_forall in Hall. apply Hall in Hin.
    simpl in Hm. lia.
  - unfold messagesOf, addMessage. simpl.
    rewrite lookup_insert_ne by assumption. apply Hd.
Qed.

(** well numbered, with ids pairwise different *)
Lemma numbered_processData sid chunk parser st :
  well_numbered st /\ distinct_ids st ->
  well_numbered (snd (processData sid chunk (parser, st)))
  /\ distinct_ids (snd (processData sid chunk (parser, st))).
Proof.
  apply (processData_invariant
           (fun st => well_numbered st /\ distinct_ids st) sid).
  - intros mid u st' [Hw Hd].
    split; [now apply well_numbered_updateMessage
           |now apply distinct_updateMessage].
  - intros r c o st' [Hw Hd].
    split; [now apply well_numbered_create_add
           |now apply distinct_create_add].
Qed.

Lemma numbered_logs sid entries : forall parser st,
  well_numbered st /\ distinct_ids st ->
  let st' := snd (fold_left
                    (fun acc log => processData sid (l_content log) acc)
                    entries (parser, st)) in
  well_numbered st' /\ distinct_ids st'.
Proof.
  induction entries as [|e entries IH]; intros parser st H; [exact H|].
  cbn [fold_left].
  pose proof (numbered_processData sid (l_content e) parser st H) as H1.
  destruct (processData sid (l_content e) (parser, st)) as [parser1 st1].
  now apply IH.
Qed.

(** X6.  Every step of a mounted hook, a message from the server, a
    call of [sendInput] or of [resize], or the closing of its socket,
    keeps the ids of the messages of each session
    pairwise different and not above the counter: [updateMessage] always
    addresses at most one message. *)
Theorem hook_step_distinct_ids e h st :
  well_numbered st -> distinct_ids st ->
  well_numbered (snd (hook_step e (h, st)))
  /\ distinct_ids (snd (hook_step e (h, st))).
Proof.
  intros Hw Hd. destruct e as [message|input0|cols rows|];
    cbn [hook_step fst snd]; [| |auto|auto].
  - destruct (sessionId h) as [sid|]; [|auto].
    assert (H : well_numbered (snd (onmessage sid message (parserRef h, st)))
                /\ distinct_ids
                     (snd (onmessage sid message (parserRef h, st)))).
    { destruct message as [entries|chunk dataType|exitCode]; simpl.
      - now apply numbered_logs.
      - now apply numbered_processData.
      - destruct (currentMessageId (parserRef h)) as [mid|].
        + split.
          * apply (well_numbered_create_add sid system _ _
                     (updateMessage sid mid (streaming false)
                        (updateSession sid stopped st))).
            now apply well_numbered_updateMessage.
          * apply (distinct_create_add sid system _ _
                     (updateMessage sid mid (streaming false)
                        (updateSession sid stopped st)));
              [now apply well_numbered_updateMessage
              |now apply distinct_updateMessage].
        + split.
          * now apply (well_numbered_create_add sid system _ _
                         (updateSession sid stopped st)).
          * now apply (distinct_create_add sid system _ _
                         (updateSession sid stopped st)). }
    now destruct (onmessage sid message (parserRef h, st)).
  - split; [now apply well_numbered_sendInput|].
    rewrite sendInput_unfold.
    destruct (wsRef h) as [ws|]; [|exact Hd].
    destruct (decide (readyState ws = OPEN)); [|exact Hd].
    destruct (truthy (trim input0) && negb (str_eqb input0 [3])); [|exact Hd].
    destruct (sessionId h) as [sid|]; simpl; [|exact Hd].
    destruct (truthy sid); simpl; [|exact Hd].
    destruct (openMessage (parserRef h)); simpl;
      [apply distinct_updateMessage|];
      now apply (distinct_create_add sid user _ _ st).
Qed.

Lemma hook_step_distinct_ids_witness :
  well_numbered (snd (hook_step (received (data (js "Hello") stdout))
                        demo_panel))
  /\ distinct_ids (snd (hook_step (received (data (js "Hello") stdout))
                          demo_panel)).
Proof.
  apply (hook_step_distinct_ids (received (data (js "Hello") stdout))
           (fst demo_panel) (snd demo_panel)).
  - intros sid. constructor.
  - intros sid. constructor.
Defined.

(** ** The parser and the store agree *)

(** the messages of [sid] are kept with their id, role and content *)
Lemma coherent_kept sid parser st st' :
  (forall m, m ∈ messagesOf st sid ->
     exists m', m' ∈ messagesOf st' sid /\ id m' = id m
                /\ role m' = role m /\ content m' = content m) ->
  coherent sid parser st -> coherent sid parser st'.
Proof.
  intros Hk [H|(mid & m & H1 & H2 & H3 & H4 & H5 & H6)]; [now left|].
  destruct (Hk m H3) as (m' & K1 & K2 & K3 & K4).
  right. exists mid, m'. repeat split; congruence.
Qed.

Lemma coherent_close sid parser mid st :
  coherent sid parser st ->
  coherent sid parser (updateMessage sid mid (streaming false) st).
Proof.
  apply coherent_kept. intros m Hm.
  exists (if decide (id m = mid) then spread m (streaming false) else m).
  split; [|now destruct (decide (id m = mid))].
  rewrite messagesOf_updateMessage. apply list_elem_of_fmap. eauto.
Qed.

Lemma coherent_create_add sid parser r c o st :
  coherent sid parser st ->
  coherent sid parser (addMessage sid (fst (createMessage r c o st))
                         (snd (createMessage r c o st))).
Proof.
  apply coherent_kept. intros m Hm. exists m.
  rewrite messagesOf_addMessage, elem_of_app. auto.
Qed.

Lemma coherent_processLine sid parser st line :
  coherent sid parser st ->
  coherent sid (fst (processLine sid (parser, st) line))
    (snd (processLine sid (parser, st) line)).
Proof.
  intros H. unfold processLine.
  destruct (negb (truthy (trim line))); [exact H|].
  destruct (some_test uiPatterns (trim line)); [exact H|].
  destruct ((length (trim line) <? 3)%nat
            && negb (test (Class is_alpha) (trim line))); [exact H|].
  assert (Hraw :
    coherent sid
      (fst match openMessage parser with
           | None =>
               let '(assistantMsg, st1) :=
                 createMessage assistant line (streaming true) st in
               ({| currentRole := Some assistant; buffer := line;
                   currentMessageId := Some (id assistantMsg) |},
                addMessage sid assistantMsg st1)
           | Some mid =>
               let buffer' := buffer parser ++ [10] ++ line in
               ({| currentRole := currentRole parser; buffer := buffer';
                   currentMessageId := currentMessageId parser |},
                updateMessage sid mid
                  {| u_content := Some buffer'; u_toolName := None;
                     u_toolInput := None; u_isStreaming := Some true |} st)
           end)
      (snd match openMessage parser with
           | None =>
               let '(assistantMsg, st1) :=
                 createMessage assistant line (streaming true) st in
               ({| currentRole := Some assistant; buffer := line;
                   currentMessageId := Some (id assistantMsg) |},
                addMessage sid assistantMsg st1)
           | Some mid =>
               let buffer' := buffer parser ++ [10] ++ line in
               ({| currentRole := currentRole parser; buffer := buffer';
                   currentMessageId := currentMessageId parser |},
                updateMessage sid mid
                  {| u_content := Some buffer'; u_toolName := None;
                     u_toolInput := None; u_isStreaming := Some true |} st)
           end)).
  { destruct (openMessage parser) as [mid|] eqn:Hopen; cbn.
    - destruct (openMessage_inv _ _ Hopen) as [Hr Hi].
      destruct H as [[H _]|(mid0 & m & H1 & H2 & H3 & H4 & H5 & H6)];
        [congruence|].
      assert (mid0 = mid) by congruence. subst mid0.
      right. eexists mid, _. repeat split; [exact Hr|exact Hi| | | |].
      + rewrite messagesOf_updateMessage. apply list_elem_of_fmap.
        exists m. split; [reflexivity|exact H3].
      + now destruct (decide (id m = mid)).
      + destruct (decide (id m = mid)); [exact H5|contradiction].
      + destruct (decide (id m = mid)); [reflexivity|contradiction].
    - right. eexists _, _. split; [reflexivity|]. split; [reflexivity|].
      split; [|repeat split].
      rewrite messagesOf_addMessage, elem_of_app. right.
      apply list_elem_of_singleton. reflexivity.
      all: reflexivity. }
  destruct (p_type (parseClaudeOutput (trim line))); try exact Hraw;
    try exact H.
  - destruct (openMessage parser); [now left|exact H].
  - destruct (createMessage tool _ _ _). now left.
  - cbn. apply (coherent_create_add sid parser system _ no_updates st H).
Qed.

Lemma coherent_lines sid lines : forall parser st,
  coherent sid parser st ->
  coherent sid (fst (fold_left (processLine sid) lines (parser, st)))
    (snd (fold_left (processLine sid) lines (parser, st))).
Proof.
  induction lines as [|l lines IH]; intros parser st H; [exact H|].
  cbn [fold_left]. pose proof (coherent_processLine sid parser st l H) as H1.
  destruct (processLine sid (parser, st) l) as [parser1 st1]. now apply IH.
Qed.

Lemma coherent_logs sid entries : forall parser st,
  coherent sid parser st ->
  let ps' := fold_left (fun acc log => processData sid (l_content log) acc)
               entries (parser, st) in
  coherent sid (fst ps') (snd ps').
Proof.
  induction entries as [|e entries IH]; intros parser st H; [exact H|].
  cbn [fold_left].
  pose proof (coherent_lines sid (split_nl (stripEscapes (l_content e)))
                parser st H) as H1.
  fold (processData sid (l_content e) (parser, st)) in H1.
  destruct (processData sid (l_content e) (parser, st)) as [parser1 st1].
  now apply IH.
Qed.

Lemma coherent_onmessage sid message parser st :
  coherent sid parser st ->
  coherent sid (fst (onmessage sid message (parser, st)))
    (snd (onmessage sid message (parser, st))).
Proof.
  intros H. destruct message as [entries|chunk dataType|exitCode]; simpl.
  - apply coherent_logs. exact H.
  - apply (coherent_lines sid). exact H.
  - destruct (currentMessageId parser) as [mid|].
    + apply (coherent_create_add sid parser system _ no_updates
               (updateMessage sid mid (streaming false)
                  (updateSession sid stopped st))).
      apply coherent_close. exact H.
    + apply (coherent_create_add sid parser system _ no_updates
               (updateSession sid stopped st)). exact H.
Qed.

Lemma coherent_sendInput sid input0 h st :
  sessionId h = Some sid ->
  coherent sid (parserRef h) st ->
  coherent sid (parserRef (fst (sendInput input0 (h, st))))
    (snd (sendInput input0 (h, st)))
  /\ sessionId (fst (sendInput input0 (h, st))) = Some sid.
Proof.
  intros Hsid H. rewrite sendInput_unfold.
  destruct (wsRef h) as [ws|]; [|auto].
  destruct (decide (readyState ws = OPEN)); [|auto].
  destruct (truthy (trim input0) && negb (str_eqb input0 [3])); [|auto].
  rewrite Hsid. cbn -[createMessage].
  destruct (truthy sid); [|cbn; split; auto].
  destruct (openMessage (parserRef h)); cbn; split; auto.
  - now left.
  - apply (coherent_create_add sid (parserRef h) user _ no_updates st H).
Qed.

(** X7.  From the moment a hook is mounted, whatever the server sends
    and whatever is typed, either no accumulation is open (role and
    message id both null) or the open message is an assistant message of
    the hook's session, present in the store, whose content is exactly
    the parser's buffer. *)
Theorem hook_run_coherent sid ws st events :
  let hs := hook_run events
              ({| sessionId := Some sid; parserRef := emptyParser;
                  wsRef := ws |}, st) in
  coherent sid (parserRef (fst hs)) (snd hs).
Proof.
  cbv zeta. unfold hook_run.
  assert (H : forall events h st0,
            sessionId h = Some sid -> coherent sid (parserRef h) st0 ->
            coherent sid
              (parserRef (fst (fold_left (fun acc e => hook_step e acc)
                                 events (h, st0))))
              (snd (fold_left (fun acc e => hook_step e acc)
                      events (h, st0)))).
  { clear. induction events as [|e events IH]; intros h st0 Hsid Hc;
      [exact Hc|].
    cbn [fold_left].
    destruct e as [message|input0|cols rows|]; cbn [hook_step fst snd].
    - rewrite Hsid.
      pose proof (coherent_onmessage sid message (parserRef h) st0 Hc) as H1.
      destruct (onmessage sid message (parserRef h, st0)) as [p1 st1].
      apply IH; [reflexivity|exact H1].
    - destruct (coherent_sendInput sid input0 h st0 Hsid Hc) as [H1 H2].
      destruct (sendInput input0 (h, st0)) as [h1 st1].
      apply IH; assumption.
    - apply IH; unfold hookResize; destruct (wsRef h) as [w|];
        try destruct (decide (readyState w = OPEN)); assumption.
    - apply IH; unfold onclose; destruct (wsRef h) as [w|]; assumption. }
  apply H; [reflexivity|now left].
Qed.

(** ** Replaying the logs *)

Lemma processLine_transcript sid parser st1 st2 line :
  same_transcript st1 st2 ->
  fst (processLine sid (parser, st1) line)
  = fst (processLine sid (parser, st2) line)
  /\ same_transcript (snd (processLine sid (parser, st1) line))
       (snd (processLine sid (parser, st2) line)).
Proof.
  destruct st1 as [s1 l1 m1 c1], st2 as [s2 l2 m2 c2].
  intros [Hm Hc]. simpl in Hm, Hc. subst m2 c2.
  unfold processLine, same_transcript.
  destruct (negb (truthy (trim line))); [auto|].
  destruct (some_test uiPatterns (trim line)); [auto|].
  destruct ((length (trim line) <? 3)%nat
            && negb (test (Class is_alpha) (trim line))); [auto|].
  destruct (p_type (parseClaudeOutput (trim line)));
    destruct (openMessage parser); cbn; auto.
Qed.

Lemma lines_transcript sid lines : forall parser st1 st2,
  same_transcript st1 st2 ->
  fst (fold_left (processLine sid) lines (parser, st1))
  = fst (fold_left (processLine sid) lines (parser, st2))
  /\ same_transcript (snd (fold_left (processLine sid) lines (parser, st1)))
       (snd (fold_left (processLine sid) lines (parser, st2))).
Proof.
  induction lines as [|l lines IH]; intros parser st1 st2 H; [auto|].
  cbn [fold_left].
  destruct (processLine_transcript sid parser st1 st2 l H) as [H1 H2].
  destruct (processLine sid (parser, st1) l) as [p1 t1].
  destruct (processLine sid (parser, st2) l) as [p2 t2].
  simpl in H1, H2. subst p2. now apply IH.
Qed.

Lemma replay_live_fold sid es : forall parser st1 st2,
  same_transcript st1 st2 ->
  let replay :=
    fold_left (fun acc log => processData sid (l_content log) acc)
      es (parser, st1) in
  let live :=
    fold_left
      (fun acc e => onmessage sid (data (l_content e) (l_type e)) acc)
      es (parser, st2) in
  fst replay = fst live /\ same_transcript (snd replay) (snd live).
Proof.
  induction es as [|e es IH]; intros parser st1 st2 H; [auto|].
  cbn [fold_left onmessage].
  assert (H' : same_transcript st1
                 (appendLog sid {| l_type := l_type e;
                                   l_content := l_content e |} st2))
    by (destruct H; split; assumption).
  destruct (lines_transcript sid (split_nl (stripEscapes (l_content e)))
              parser _ _ H') as [H1 H2].
  fold (processData sid (l_content e) (parser, st1)) in H1, H2.
  fold (processData sid (l_content e)
          (parser, appendLog sid {| l_type := l_type e;
                                    l_content := l_content e |} st2))
    in H1, H2.
  destruct (processData sid (l_content e) (parser, st1)) as [p1 t1].
  destruct (processData sid (l_content e) (parser, appendLog _ _ _))
    as [p2 t2].
  simpl in H1, H2. subst p2. now apply IH.
Qed.

(** X8.  Handling one [logs] message gives the same parser state, the
    same messages and the same counter as handling its entries one after
    the other as [data] messages. *)
Theorem replay_equals_live sid entries parser st :
  let replay := onmessage sid (logs entries) (parser, st) in
  let live :=
    fold_left
      (fun acc e => onmessage sid (data (l_content e) (l_type e)) acc)
      entries (parser, st) in
  fst replay = fst live /\ same_transcript (snd replay) (snd live).
Proof.
  cbv zeta. cbn [onmessage].
  apply (replay_live_fold sid entries parser (setLogs sid entries st) st).
  split; reflexivity.
Qed.

(** ** Sending what was typed *)







(** ** The terminal view *)

Lemma last_default {A} (l : list A) : forall x d1 d2,
  List.last (x :: l) d1 = List.last (x :: l) d2.
Proof.
  induction l as [|y l IH]; intros x d1 d2; [reflexivity|].
  change (List.last (y :: l) d1 = List.last (y :: l) d2). apply IH.
Qed.

(** X10.  As long as each new value of the logs extends the one before,
    the terminal has written every entry of the latest value exactly
    once, in order. *)
Theorem writeLogs_exactly_once values :
  growing [] values ->
  let t := fold_left (fun t entries => writeLogs entries t) values
             {| written := []; lastLogIndex := 0 |} in
  written t = map l_content (List.last values [])
  /\ lastLogIndex t = length (List.last values []).
Proof.
  cbv zeta.
  assert (H : forall values current t,
            written t = map l_content current ->
            lastLogIndex t = length current ->
            growing current values ->
            let t' := fold_left (fun t entries => writeLogs entries t)
                        values t in
            written t' = map l_content (List.last values current)
            /\ lastLogIndex t' = length (List.last values current)).
  { clear. induction values as [|v rest IH]; intros current t Hw Hl Hg;
      [auto|].
    destruct Hg as [[k ->] Hg]. cbn [fold_left].
    specialize (IH (current ++ k) (writeLogs (current ++ k) t)).
    cbv zeta in IH.
    replace (List.last ((current ++ k) :: rest) current)
      with (List.last rest (current ++ k))
      by (destruct rest as [|v rest'];
          [reflexivity|exact (last_default rest' v (current ++ k) current)]).
    apply IH; [|reflexivity|exact Hg].
    unfold writeLogs. cbn [written].
    now rewrite Hw, Hl, drop_app_length, map_app. }
  intros Hg. now apply (H values [] _).
Qed.

Lemma writeLogs_exactly_once_witness :
  let e1 := {| l_type := stdout; l_content := js "a" |} in
  let e2 := {| l_type := stdout; l_content := js "b" |} in
  let t := fold_left (fun t entries => writeLogs entries t)
             [[e1]; [e1; e2]] {| written := []; lastLogIndex := 0 |} in
  written t = map l_content (List.last [[e1]; [e1; e2]] [])
  /\ lastLogIndex t = length (List.last [[e1]; [e1; e2]] []).
Proof.
  apply (writeLogs_exactly_once
           [[{| l_type := stdout; l_content := js "a" |}];
            [{| l_type := stdout; l_content := js "a" |};
             {| l_type := stdout; l_content := js "b" |}]]).
  simpl. repeat split.
  - eexists. reflexivity.
  - exists [{| l_type := stdout; l_content := js "b" |}]. reflexivity.
Defined.

(** ** The other actions of the store *)

(** X11.  Appending two texts to a message one after the other is
    appending their concatenation: the store is the same. *)
Theorem appendToMessage_compose sid mid a b st :
  appendToMessage sid mid b (appendToMessage sid mid a st)
  = appendToMessage sid mid (a ++ b) st.
Proof.
  unfold appendToMessage, with_messages, messagesOf. cbn.
  rewrite lookup_insert_eq, insert_insert_eq. cbn.
  do 2 f_equal. rewrite map_map. apply map_ext. intros m.
  destruct (decide (id m = mid)) as [E|E]; cbn.
  - rewrite decide_True by exact E. now rewrite <- app_assoc.
  - now rewrite decide_False by exact E.
Qed.

(** X12.  Finalizing the streaming message of a session moves it, no
    longer streaming, to the end of the session's messages and empties
    the slot; finalizing again, or with no streaming message, changes
    nothing. *)
Theorem finalizeStreamingMessage_once sid m ss :
  let ss1 := finalizeStreamingMessage sid
               (setStreamingMessage sid (Some m) ss) in
  messagesOf (store ss1) sid
  = messagesOf (store ss) sid ++ [spread m (streaming false)]
  /\ currentStreamingMessage ss1 !! sid = Some None
  /\ finalizeStreamingMessage sid ss1 = ss1
  /\ (currentStreamingMessage ss !! sid = None
      \/ currentStreamingMessage ss !! sid = Some None ->
      finalizeStreamingMessage sid ss = ss).
Proof.
  assert (E : finalizeStreamingMessage sid
                (setStreamingMessage sid (Some m) ss)
              = {| store := addMessage sid (spread m (streaming false))
                              (store ss);
                   currentStreamingMessage :=
                     <[sid := None]>
                       (<[sid := Some m]> (currentStreamingMessage ss)) |}).
  { unfold finalizeStreamingMessage, setStreamingMessage.
    cbn [currentStreamingMessage store]. now rewrite lookup_insert_eq. }
  cbv zeta. rewrite E. cbn [store currentStreamingMessage].
  split; [apply messagesOf_addMessage|].
  split; [apply lookup_insert_eq|].
  split.
  - unfold finalizeStreamingMessage. cbn [currentStreamingMessage].
    now rewrite lookup_insert_eq.
  - unfold finalizeStreamingMessage. now intros [-> | ->].
Qed.

(** ** What a hook puts on its socket *)

Lemma sendInput_socket input0 h st :
  sessionId (fst (sendInput input0 (h, st))) = sessionId h
  /\ match wsRef h with
     | Some ws =>
         exists k,
           wsRef (fst (sendInput input0 (h, st)))
           = Some {| readyState := readyState ws; sent := sent ws ++ k |}
           /\ (k = [] \/ k = [input input0])
           /\ (readyState ws <> OPEN -> k = [])
     | None => wsRef (fst (sendInput input0 (h, st))) = None
     end.
Proof.
  rewrite sendInput_unfold. destruct (wsRef h) as [ws|] eqn:E;
    [|cbn; split; [reflexivity|exact E]].
  destruct (decide (readyState ws = OPEN)).
  - destruct (truthy (trim input0) && negb (str_eqb input0 [3]));
      [destruct (createMessage user _ no_updates st) as [m st1];
       destruct (sessionId h) as [sid|];
       [destruct (truthy sid);
        [destruct (openMessage (parserRef h))|]|]|];
      cbn; (split; [reflexivity|]); exists [input input0];
      (split; [reflexivity|]); (split; [auto|contradiction]).
  - cbn. split; [reflexivity|]. exists [].
    rewrite app_nil_r, E. destruct ws; auto.
Qed.

(** what one event does to the socket of a hook: the state only moves to
    [CLOSED], and that on the closing event alone; a closed socket is sent
    nothing *)
Lemma hook_step_socket e h st ws :
  wsRef h = Some ws ->
  exists k,
    wsRef (fst (hook_step e (h, st)))
    = Some {| readyState := if closes e then CLOSED else readyState ws;
              sent := sent ws ++ k |}
    /\ Forall (fun m => (exists d, m = input d)
                        \/ (exists cols rows, m = resize cols rows)) k
    /\ (readyState ws <> OPEN -> k = []).
Proof.
  intros Hws. destruct e as [message|input0|cols rows|];
    cbn [hook_step fst snd closes].
  - exists []. rewrite app_nil_r. split; [|split; [constructor|reflexivity]].
    destruct (sessionId h) as [sid'|];
      [destruct (onmessage sid' message (parserRef h, st)) as [p1 st1]|];
      cbn; rewrite Hws; now destruct ws.
  - destruct (sendInput_socket input0 h st) as [_ Hs].
    rewrite Hws in Hs. destruct Hs as (k & Hk & Hcase & Hclosed).
    exists k. split; [exact Hk|]. split; [|exact Hclosed].
    destruct Hcase as [->| ->]; [constructor|].
    constructor; [left; eauto|constructor].
  - unfold hookResize. rewrite Hws.
    destruct (decide (readyState ws = OPEN)).
    + exists [resize cols rows]. split; [reflexivity|].
      split; [|contradiction].
      constructor; [right; eauto|constructor].
    + exists []. rewrite app_nil_r, Hws.
      split; [now destruct ws|]. split; [constructor|reflexivity].
  - exists []. unfold onclose. rewrite Hws, app_nil_r. cbn.
    split; [reflexivity|]. split; [constructor|reflexivity].
Qed.

(** X24.  A hook mounted with a non-empty session id sends [subscribe]
    exactly once, as the first message and for its own session, when its
    socket opens; everything it sends afterwards is input or resize.
    Whatever happens then (messages from the server, input, resizes, the
    socket closed from outside), the socket is open unless it has been
    closed from outside; the cleanup adds one [unsubscribe] if the socket
    is still open and nothing if it has been closed, and leaves the
    socket closed. *)
Theorem hook_subscribes_once sid st events :
  truthy sid = true ->
  let h := fst (hook_run events (onopen (connect (Some sid)), st)) in
  exists rest,
    wsRef h
    = Some {| readyState := if existsb closes events then CLOSED else OPEN;
              sent := subscribe sid :: rest |}
    /\ Forall (fun m => (exists d, m = input d)
                        \/ (exists cols rows, m = resize cols rows)) rest
    /\ wsRef (disconnect h)
       = Some {| readyState := CLOSED;
                 sent := subscribe sid :: rest
                         ++ (if existsb closes events then []
                             else [unsubscribe]) |}.
Proof.
  intros Hts. cbv zeta. cbn [fst snd]. set (h0 := onopen _).
  assert (E0 : wsRef h0
               = Some {| readyState := OPEN; sent := [subscribe sid] |})
    by (subst h0; unfold onopen, connect; cbn; now rewrite Hts).
  clearbody h0.
  assert (H : forall events h st0 rest (c : bool),
            wsRef h = Some {| readyState := if c then CLOSED else OPEN;
                              sent := subscribe sid :: rest |} ->
            Forall (fun m => (exists d, m = input d)
                             \/ (exists cols rows, m = resize cols rows))
              rest ->
            exists rest',
              wsRef (fst (hook_run events (h, st0)))
              = Some {| readyState := if c || existsb closes events
                                      then CLOSED else OPEN;
                        sent := subscribe sid :: rest' |}
              /\ Forall (fun m => (exists d, m = input d)
                                  \/ (exists cols rows, m = resize cols rows))
                   rest').
  { clear. unfold hook_run.
    induction events as [|e events IH]; intros h st0 rest c Hws Hall.
    - exists rest. rewrite orb_false_r. auto.
    - cbn [fold_left existsb].
      destruct (hook_step_socket e h st0 _ Hws) as (k & Hk & Hin & _).
      destruct (hook_step e (h, st0)) as [h1 st1]. cbn [fst] in Hk.
      cbn [readyState sent] in Hk.
      destruct (IH h1 st1 (rest ++ k) (c || closes e)) as (rest' & H1 & H2).
      + rewrite Hk. destruct c, (closes e); reflexivity.
      + apply Forall_app. split; assumption.
      + exists rest'. rewrite orb_assoc. split; assumption. }
  destruct (H events h0 st [] false E0 (Forall_nil_2 _))
    as (rest & Hws & Hall).
  cbn [orb] in Hws.
  exists rest. split; [exact Hws|]. split; [exact Hall|].
  unfold disconnect. rewrite Hws. cbn [readyState sent].
  destruct (existsb closes events); cbn.
  - now rewrite app_nil_r.
  - reflexivity.
Qed.

Lemma hook_subscribes_once_witness :
  let h := fst (hook_run [typed (js "ls" ++ [10]); closed; typed (js "pwd")]
                  (onopen (connect (Some demo)), initialStore)) in
  exists rest,
    wsRef h
    = Some {| readyState :=
                if existsb closes
                     [typed (js "ls" ++ [10]); closed; typed (js "pwd")]
                then CLOSED else OPEN;
              sent := subscribe demo :: rest |}
    /\ Forall (fun m => (exists d, m = input d)
                        \/ (exists cols rows, m = resize cols rows)) rest
    /\ wsRef (disconnect h)
       = Some {| readyState := CLOSED;
                 sent := subscribe demo :: rest
                         ++ (if existsb closes
                                  [typed (js "ls" ++ [10]); closed;
                                   typed (js "pwd")]
                             then [] else [unsubscribe]) |}.
Proof.
  apply (hook_subscribes_once demo initialStore
           [typed (js "ls" ++ [10]); closed; typed (js "pwd")]).
  vm_compute. reflexivity.
Defined.

End FrontendExtras.


(* ===================================================================== *)
(** * Further properties of the registry and of the fanout                *)
(* ===================================================================== *)

Module BackendExtras.
Import JS Backend RegistryProperties.

(** ** Reading the logs *)

(** X13.  For a registered session and a positive limit, [getLogs]
    returns the most recent entries, in order, as many as the limit
    allows; a limit of zero gives all of them, as no limit does. *)
Theorem getLogs_most_recent m sid ref s l :
  get sid m = Some (ref, s) ->
  (0 < l)%Z ->
  (exists older, logs s = older ++ getLogs sid (Some l) m)
  /\ length (getLogs sid (Some l) m)
     = Nat.min (length (logs s)) (Z.to_nat l)
  /\ getLogs sid (Some 0%Z) m = logs s
  /\ getLogs sid None m = logs s.
Proof.
  intros Hg Hl. unfold getLogs, slice_from. rewrite Hg.
  destruct (Z.eqb_spec l 0); [lia|].
  destruct (Z.ltb_spec (- l) 0); [|lia]. cbn [Z.eqb].
  split; [|split; [|split; reflexivity]].
  - eexists. symmetry. apply take_drop.
  - rewrite length_drop. lia.
Qed.

Lemma getLogs_most_recent_witness :
  let entry := fun c => {| type := stdout; content := js c |} in
  let m := {| sessions := {[ s1 := 0%nat ]};
              heap := [{| id := s1; name := js "demo";
                          workingDir := js "/tmp"; pty := None;
                          status := stopped;
                          logs := [entry "a"; entry "b"; entry "c"] |}];
              ptys := [] |} in
  (exists older, [entry "a"; entry "b"; entry "c"]
                 = older ++ getLogs s1 (Some 2%Z) m)
  /\ length (getLogs s1 (Some 2%Z) m)
     = Nat.min (length [entry "a"; entry "b"; entry "c"]) (Z.to_nat 2)
  /\ getLogs s1 (Some 0%Z) m = [entry "a"; entry "b"; entry "c"]
  /\ getLogs s1 None m = [entry "a"; entry "b"; entry "c"].
Proof.
  cbv zeta.
  refine (getLogs_most_recent _ s1 0%nat
            {| id := s1; name := js "demo"; workingDir := js "/tmp";
               pty := None; status := stopped;
               logs := [ {| type := stdout; content := js "a" |};
                         {| type := stdout; content := js "b" |};
                         {| type := stdout; content := js "c" |} ] |}
            2%Z _ _).
  - vm_compute. reflexivity.
  - lia.
Defined.

(** ** The registry is a map to distinct objects *)

Lemma registry_wf_empty : registry_wf emptyManager.
Proof. split; intros *; simpl; rewrite lookup_empty; discriminate. Qed.

(** operations that neither touch the [Map] nor allocate *)
Lemma registry_wf_same m m' :
  sessions m' = sessions m -> length (heap m') = length (heap m) ->
  registry_wf m -> registry_wf m'.
Proof. intros Hs Hl [H1 H2]. split; rewrite Hs, ?Hl; assumption. Qed.

Lemma registry_wf_createSession uuid n d m :
  registry_wf m -> registry_wf (snd (fst (createSession uuid n d m))).
Proof.
  intros [H1 H2]. split; simpl.
  - intros sid ref. rewrite length_app. simpl.
    destruct (decide (uuid = sid)) as [->|Hne].
    + rewrite lookup_insert_eq. intros [= <-]. lia.
    + rewrite lookup_insert_ne by assumption. intros H%H1. lia.
  - intros sid1 sid2 ref. rewrite !lookup_insert.
    destruct (decide (uuid = sid1)) as [E1|Hne1],
             (decide (uuid = sid2)) as [E2|Hne2].
    + congruence.
    + intros [= <-] H%H1. lia.
    + intros H%H1 [= <-]. lia.
    + apply H2.
Qed.

Lemma registry_wf_deleteSession sid m :
  registry_wf m -> registry_wf (snd (fst (deleteSession sid m))).
Proof.
  intros H. unfold deleteSession.
  destruct (get sid m) as [[ref s]|]; [|exact H]. simpl.
  assert (Hl : length (heap (match pty s with
                             | Some h => on_pty h pty_kill m
                             | None => m end)) = length (heap m))
    by now destruct (pty s).
  assert (Hs : sessions (match pty s with
                         | Some h => on_pty h pty_kill m
                         | None => m end) = sessions m)
    by now destruct (pty s).
  destruct H as [H1 H2]. split; simpl; rewrite Hs, ?Hl.
  - intros sid' r [_ H]%lookup_delete_Some. eauto.
  - intros sid1 sid2 r [_ Ha]%lookup_delete_Some [_ Hb]%lookup_delete_Some.
    eauto.
Qed.

Lemma same_startSession sid o m :
  sessions (snd (fst (startSession sid o m))) = sessions m
  /\ length (heap (snd (fst (startSession sid o m)))) = length (heap m).
Proof.
  unfold startSession. destruct (get sid m) as [[ref s]|]; [|auto].
  destruct o; simpl; rewrite length_alter; auto.
Qed.

Lemma same_stopSession sid m :
  sessions (snd (fst (stopSession sid m))) = sessions m
  /\ length (heap (snd (fst (stopSession sid m)))) = length (heap m).
Proof.
  unfold stopSession. destruct (get sid m) as [[ref s]|]; [|auto].
  destruct (pty s); simpl; rewrite ?length_alter; auto.
Qed.

Lemma same_sendInput sid d m :
  sessions (snd (sendInput sid d m)) = sessions m
  /\ heap (snd (sendInput sid d m)) = heap m.
Proof.
  unfold sendInput. destruct (get sid m) as [[ref s]|]; [|auto].
  destruct (pty s); auto.
Qed.

Lemma same_resizeSession sid c r m :
  sessions (snd (resizeSession sid c r m)) = sessions m
  /\ heap (snd (resizeSession sid c r m)) = heap m.
Proof.
  unfold resizeSession. destruct (get sid m) as [[ref s]|]; [|auto].
  destruct (pty s); auto.
Qed.

Lemma same_onData h d m :
  sessions (fst (onData h d m)) = sessions m
  /\ length (heap (fst (onData h d m))) = length (heap m).
Proof.
  unfold onData. destruct (ptys m !! h); simpl; rewrite ?length_alter; auto.
Qed.

Lemma same_onExit h code m :
  sessions (fst (onExit h code m)) = sessions m
  /\ length (heap (fst (onExit h code m))) = length (heap m).
Proof.
  unfold onExit. destruct (ptys m !! h); simpl; rewrite ?length_alter; auto.
Qed.

Lemma registry_wf_step sv sv' :
  step sv sv' -> registry_wf (manager sv) -> registry_wf (manager sv').
Proof.
  intros Hstep H. destruct Hstep.
  - exact H.
  - unfold onMessage. destruct (connections sv !! ws) as [c|]; [|exact H].
    destruct message; try exact H;
      destruct (subscribed c) as [sid|]; try exact H; simpl.
    + destruct (same_sendInput sid data (manager sv)) as [A B].
      eapply registry_wf_same; [exact A|now rewrite B|exact H].
    + destruct (same_resizeSession sid cols rows (manager sv)) as [A B].
      eapply registry_wf_same; [exact A|now rewrite B|exact H].
  - unfold onClose. now destruct (connections sv !! ws).
  - unfold postSession.
    pose proof (registry_wf_createSession uuid name0 dir _ H) as H'.
    destruct (createSession uuid name0 dir (manager sv)) as [[r m] es].
    now rewrite manager_emit.
  - unfold postStart.
    destruct (same_startSession sid o (manager sv)) as [A B].
    destruct (startSession sid o (manager sv)) as [[r m] es].
    simpl. rewrite manager_emit. simpl in *.
    eapply registry_wf_same; eassumption.
  - unfold postStop.
    destruct (same_stopSession sid (manager sv)) as [A B].
    destruct (stopSession sid (manager sv)) as [[r m] es].
    simpl. rewrite manager_emit. simpl in *.
    eapply registry_wf_same; eassumption.
  - unfold deleteRoute.
    pose proof (registry_wf_deleteSession sid _ H) as H'.
    destruct (deleteSession sid (manager sv)) as [[r m] es].
    simpl. now rewrite manager_emit.
  - unfold ptyData.
    destruct (same_onData h d (manager sv)) as [A B].
    destruct (onData h d (manager sv)) as [m es].
    rewrite manager_emit. simpl in *.
    eapply registry_wf_same; eassumption.
  - unfold ptyExit.
    destruct (same_onExit h exitCode (manager sv)) as [A B].
    destruct (onExit h exitCode (manager sv)) as [m es].
    rewrite manager_emit. simpl in *.
    eapply registry_wf_same; eassumption.
Qed.

Lemma registry_wf_reachable sv : reachable sv -> registry_wf (manager sv).
Proof.
  induction 1 as [|sv sv' _ IH Hstep]; [apply registry_wf_empty|].
  exact (registry_wf_step _ _ Hstep IH).
Qed.

Lemma getSession_same m m' sid :
  sessions m' = sessions m -> heap m' = heap m ->
  getSession sid m' = getSession sid m.
Proof. intros Hs Hh. unfold getSession, get. now rewrite Hs, Hh. Qed.

(** an assignment to the object of [sid] is not seen through another id *)
Lemma getSession_alter_other m m' sid sid' ref f :
  registry_wf m -> sessions m !! sid = Some ref -> sid' <> sid ->
  sessions m' = sessions m -> heap m' = alter f ref (heap m) ->
  getSession sid' m' = getSession sid' m.
Proof.
  intros [_ Hinj] Hs Hne Hs' Hh. unfold getSession, get. rewrite Hs', Hh.
  destruct (sessions m !! sid') as [r|] eqn:E; [|reflexivity].
  rewrite list_lookup_alter_ne; [reflexivity|].
  intros <-. apply Hne. eapply Hinj; eassumption.
Qed.

(** ** Creating a session *)

(** X14.  In a reachable state, [createSession] registers under the new
    id a session that is stopped, has no process and an empty log, named
    as asked or [Session n+1] for an empty name, and every other id still
    gives the session it gave before. *)
Theorem createSession_registers sv uuid name0 dir :
  reachable sv ->
  let m := manager sv in
  let m' := snd (fst (createSession uuid name0 dir m)) in
  getSession uuid m'
  = Some {| id := uuid;
            name := if truthy name0 then name0
                    else js "Session "
                         ++ numberToString (Z.of_nat (size (sessions m)) + 1);
            workingDir := dir; pty := None; status := stopped; logs := [] |}
  /\ forall sid, sid <> uuid -> getSession sid m' = getSession sid m.
Proof.
  intros Hr. destruct (registry_wf_reachable sv Hr) as [Hin _].
  cbv zeta. unfold getSession, get, createSession. cbn [fst snd sessions heap].
  split.
  - rewrite lookup_insert_eq, list_lookup_middle by reflexivity. reflexivity.
  - intros sid Hne. rewrite lookup_insert_ne by congruence.
    destruct (sessions (manager sv) !! sid) as [r|] eqn:E; [|reflexivity].
    rewrite lookup_app_l by eauto. reflexivity.
Qed.

Lemma createSession_registers_witness :
  let m := manager created_server in
  let m' := snd (fst (createSession s2 [] (js "/home") m)) in
  getSession s2 m'
  = Some {| id := s2;
            name := if truthy [] then []
                    else js "Session "
                         ++ numberToString (Z.of_nat (size (sessions m)) + 1);
            workingDir := js "/home"; pty := None; status := stopped;
            logs := [] |}
  /\ forall sid, sid <> s2 -> getSession sid m' = getSession sid m.
Proof.
  apply (createSession_registers created_server s2 [] (js "/home")).
  apply reachable_created.
Defined.

(** ** Sessions do not interfere *)

(** X15.  In a reachable state, starting, stopping, writing to, resizing
    or deleting one session leaves the record of every other session,
    status, process field and log included, as it was. *)
Theorem operations_are_isolated sv sid sid' :
  reachable sv ->
  sid' <> sid ->
  let m := manager sv in
  (forall o, getSession sid' (snd (fst (startSession sid o m)))
             = getSession sid' m)
  /\ getSession sid' (snd (fst (stopSession sid m))) = getSession sid' m
  /\ (forall d, getSession sid' (snd (sendInput sid d m)) = getSession sid' m)
  /\ (forall cols rows,
        getSession sid' (snd (resizeSession sid cols rows m))
        = getSession sid' m)
  /\ getSession sid' (snd (fst (deleteSession sid m))) = getSession sid' m.
Proof.
  intros Hr Hne. pose proof (registry_wf_reachable sv Hr) as Hwf.
  cbv zeta. set (m := manager sv) in *.
  unfold startSession, stopSession, sendInput, resizeSession, deleteSession.
  destruct (get sid m) as [[ref s]|] eqn:Hg; [|repeat split].
  destruct (get_heap _ _ _ _ Hg) as [Hs _].
  split; [intros [|]; cbn [fst snd];
          eapply getSession_alter_other; eauto|].
  split; [destruct (pty s); cbn [fst snd];
          [eapply getSession_alter_other; eauto|reflexivity]|].
  split; [intros d; destruct (pty s); reflexivity|].
  split; [intros c r; destruct (pty s); reflexivity|].
  cbn [fst snd]. unfold getSession, get. cbn [sessions heap].
  rewrite lookup_delete_ne by congruence. now destruct (pty s).
Qed.

Lemma reachable_two_sessions : reachable two_sessions_server.
Proof.
  eapply reachable_step; [|apply step_start].
  eapply reachable_step; [apply reachable_created|apply step_create].
Qed.

Lemma operations_are_isolated_witness :
  let m := manager two_sessions_server in
  (forall o, getSession s2 (snd (fst (startSession s1 o m)))
             = getSession s2 m)
  /\ getSession s2 (snd (fst (stopSession s1 m))) = getSession s2 m
  /\ (forall d, getSession s2 (snd (sendInput s1 d m)) = getSession s2 m)
  /\ (forall cols rows,
        getSession s2 (snd (resizeSession s1 cols rows m))
        = getSession s2 m)
  /\ getSession s2 (snd (fst (deleteSession s1 m))) = getSession s2 m.
Proof.
  apply (operations_are_isolated two_sessions_server s1 s2).
  - apply reachable_two_sessions.
  - vm_compute. discriminate.
Defined.

(** ** Identity and log of a session *)

Lemma same_identity_refl s : same_identity s s.
Proof. repeat split; reflexivity. Qed.

Lemma alter_same_identity f ref (objects : list Session) r s :
  (forall x, same_identity x (f x)) ->
  objects !! r = Some s ->
  exists s', alter f ref objects !! r = Some s' /\ same_identity s s'.
Proof.
  intros Hf Hr. eexists. split; [apply lookup_alter_of, Hr|].
  destruct (decide (ref = r)); [apply Hf|apply same_identity_refl].
Qed.

Lemma same_identity_status st x : same_identity x (set_status st x).
Proof. repeat split; reflexivity. Qed.

Lemma same_identity_push e x : same_identity x (push_log e x).
Proof. repeat split; try reflexivity. simpl. now apply prefix_app_r. Qed.

Lemma same_identity_trans a b c :
  same_identity a b -> same_identity b c -> same_identity a c.
Proof.
  intros (A1 & A2 & A3 & A4) (B1 & B2 & B3 & B4).
  repeat split; try congruence. etransitivity; eassumption.
Qed.

(** every session object keeps its identity and its log through a step *)
Lemma heap_step sv sv' r s :
  step sv sv' ->
  heap (manager sv) !! r = Some s ->
  exists s', heap (manager sv') !! r = Some s' /\ same_identity s s'.
Proof.
  intros Hstep Hr. destruct Hstep.
  - eauto using same_identity_refl.
  - unfold onMessage. destruct (connections sv !! ws) as [c|];
      [|eauto using same_identity_refl].
    destruct message; eauto using same_identity_refl;
      destruct (subscribed c) as [sid|]; eauto using same_identity_refl;
      simpl.
    + rewrite (proj2 (same_sendInput sid data (manager sv))).
      eauto using same_identity_refl.
    + rewrite (proj2 (same_resizeSession sid cols rows (manager sv))).
      eauto using same_identity_refl.
  - unfold onClose. destruct (connections sv !! ws);
      eauto using same_identity_refl.
  - unfold postSession, createSession. rewrite ?manager_emit. simpl.
    exists s. split; [now apply lookup_app_l_Some|apply same_identity_refl].
  - unfold postStart, startSession.
    destruct (get sid (manager sv)) as [[ref x]|];
      [|simpl; eauto using same_identity_refl].
    destruct o; simpl; rewrite ?manager_emit; simpl;
      apply alter_same_identity; try assumption;
      intros y; repeat split; reflexivity.
  - unfold postStop, stopSession.
    destruct (get sid (manager sv)) as [[ref x]|];
      [|simpl; eauto using same_identity_refl].
    destruct (pty x); simpl; [|eauto using same_identity_refl].
    rewrite ?manager_emit. simpl.
    apply alter_same_identity; [apply same_identity_status|assumption].
  - unfold deleteRoute, deleteSession.
    destruct (get sid (manager sv)) as [[ref x]|];
      [|simpl; eauto using same_identity_refl].
    simpl. rewrite ?manager_emit. simpl.
    destruct (pty x); eauto using same_identity_refl.
  - unfold ptyData, onData.
    destruct (ptys (manager sv) !! h);
      rewrite ?manager_emit; simpl; [|eauto using same_identity_refl].
    apply alter_same_identity; [apply same_identity_push|assumption].
  - unfold ptyExit, onExit.
    destruct (ptys (manager sv) !! h);
      rewrite ?manager_emit; simpl; [|eauto using same_identity_refl].
    apply alter_same_identity; [|assumption].
    intros y. eapply same_identity_trans;
      [apply (same_identity_status stopped)|apply same_identity_push].
Qed.

(** X16.  Through any step of the server, a session that stays
    registered under its id keeps its id, its name and its working
    directory, and its log is only ever extended: entries are never
    removed, reordered or rewritten. *)
Theorem session_log_is_append_only sv sv' sid s :
  step sv sv' ->
  getSession sid (manager sv) = Some s ->
  sessions (manager sv') !! sid = sessions (manager sv) !! sid ->
  exists s', getSession sid (manager sv') = Some s' /\ same_identity s s'.
Proof.
  intros Hstep Hg Hkeep.
  destruct (getSession_get _ _ _ Hg) as (ref & Hget).
  destruct (get_heap _ _ _ _ Hget) as [Hs Hh].
  destruct (heap_step sv sv' ref s Hstep Hh) as (s' & Hh' & Hid).
  exists s'. split; [|exact Hid].
  unfold getSession, get. now rewrite Hkeep, Hs, Hh'.
Qed.

Lemma session_log_is_append_only_witness :
  exists s', getSession s1 (manager (ptyData 0 (js "out") started_server))
             = Some s'
             /\ same_identity
                  {| id := s1; name := js "demo"; workingDir := js "/tmp";
                     pty := Some 0%nat; status := running; logs := [] |} s'.
Proof.
  apply (session_log_is_append_only started_server
           (ptyData 0 (js "out") started_server) s1).
  - apply step_data. eexists. split; [vm_compute; reflexivity|reflexivity].
  - vm_compute. reflexivity.
  - vm_compute. reflexivity.
Defined.

(** ** Ids of objects and of processes *)

Lemma named_empty : named emptyManager.
Proof. split; intros *; simpl; intros; discriminate. Qed.

(** an assignment that keeps the id, and calls on handles that keep what
    the callbacks captured *)
Lemma named_update m m' :
  sessions m' = sessions m ->
  (forall r s', heap m' !! r = Some s' ->
     exists s, heap m !! r = Some s /\ id s' = id s) ->
  (forall r s, heap m !! r = Some s ->
     exists s', heap m' !! r = Some s' /\ id s' = id s) ->
  (forall h p', ptys m' !! h = Some p' ->
     exists p, ptys m !! h = Some p /\ p_session p' = p_session p
               /\ p_sessionId p' = p_sessionId p) ->
  named m -> named m'.
Proof.
  intros Hs Hback Hfwd Hp [H1 H2]. split.
  - intros sid ref s'. rewrite Hs. intros Hr Hh.
    destruct (Hback _ _ Hh) as (s & Hh0 & ->). eauto.
  - intros h p' Hp'. destruct (Hp _ _ Hp') as (p & Hp0 & -> & ->).
    destruct (H2 _ _ Hp0) as (s & Hh & Hid).
    destruct (Hfwd _ _ Hh) as (s' & Hh' & Hid'). exists s'. split; congruence.
Qed.

Lemma named_on_session ref f m :
  (forall s, id (f s) = id s) -> named m -> named (on_session ref f m).
Proof.
  intros Hf. apply named_update; simpl; [reflexivity| | |eauto].
  - intros r s' (s & Hs & ->)%lookup_alter_Some. exists s. split; [exact Hs|].
    now destruct (decide (ref = r)).
  - intros r s Hs. eexists. split; [apply lookup_alter_of, Hs|].
    now destruct (decide (ref = r)).
Qed.

Lemma named_on_pty h f m :
  (forall p, p_session (f p) = p_session p) ->
  (forall p, p_sessionId (f p) = p_sessionId p) ->
  named m -> named (on_pty h f m).
Proof.
  intros Hf1 Hf2. apply named_update; simpl; [reflexivity|eauto|eauto|].
  intros h0 p' (p & Hp & ->)%lookup_alter_Some. exists p.
  split; [exact Hp|]. now destruct (decide (h = h0)).
Qed.

Lemma named_createSession uuid n d m :
  registry_wf m -> named m -> named (snd (fst (createSession uuid n d m))).
Proof.
  intros [Hin _] [H1 H2]. split; simpl.
  - intros sid ref s. rewrite lookup_insert.
    destruct (decide (uuid = sid)) as [<-|Hne].
    + intros [= <-]. rewrite list_lookup_middle by reflexivity.
      now intros [= <-].
    + intros Hr. rewrite lookup_app_l by eauto. eauto.
  - intros h p Hp. destruct (H2 h p Hp) as (s & Hs & Hid).
    exists s. split; [now apply lookup_app_l_Some|exact Hid].
Qed.

Lemma named_startSession sid o m :
  named m -> named (snd (fst (startSession sid o m))).
Proof.
  intros H. unfold startSession.
  destruct (get sid m) as [[ref s]|] eqn:Hg; [|exact H].
  destruct (get_heap _ _ _ _ Hg) as [Hs Hh].
  destruct o; simpl; [|now apply named_on_session].
  apply named_on_session; [reflexivity|].
  destruct H as [H1 H2]. split; simpl; [exact H1|].
  intros h p [Hp|[_ Hp]]%lookup_app_Some; [eauto|].
  destruct (h - length (ptys m))%nat; simpl in Hp; [|discriminate].
  injection Hp as <-. simpl. exists s. split; [exact Hh|eauto].
Qed.

Lemma named_deleteSession sid m :
  named m -> named (snd (fst (deleteSession sid m))).
Proof.
  intros H. unfold deleteSession.
  destruct (get sid m) as [[ref s]|]; [|exact H]. simpl.
  assert (H' : named (match pty s with
                      | Some h => on_pty h pty_kill m
                      | None => m end))
    by (destruct (pty s); [now apply named_on_pty|exact H]).
  destruct H' as [H1 H2]. split; simpl; [|exact H2].
  intros sid' r s' [_ Hr]%lookup_delete_Some. eauto.
Qed.

Lemma named_step sv sv' :
  step sv sv' -> registry_wf (manager sv) -> named (manager sv) ->
  named (manager sv').
Proof.
  intros Hstep Hwf H. destruct Hstep.
  - exact H.
  - unfold onMessage. destruct (connections sv !! ws) as [c|]; [|exact H].
    destruct message; try exact H;
      destruct (subscribed c) as [sid|]; try exact H; simpl.
    + unfold sendInput. destruct (get sid (manager sv)) as [[ref s]|];
        [|exact H].
      destruct (pty s); [now apply named_on_pty|exact H].
    + unfold resizeSession. destruct (get sid (manager sv)) as [[ref s]|];
        [|exact H].
      destruct (pty s); [now apply named_on_pty|exact H].
  - unfold onClose. now destruct (connections sv !! ws).
  - unfold postSession.
    pose proof (named_createSession uuid name0 dir _ Hwf H) as H'.
    destruct (createSession uuid name0 dir (manager sv)) as [[r m] es].
    now rewrite manager_emit.
  - unfold postStart.
    pose proof (named_startSession sid o _ H) as H'.
    destruct (startSession sid o (manager sv)) as [[r m] es].
    simpl. now rewrite manager_emit.
  - unfold postStop, stopSession.
    destruct (get sid (manager sv)) as [[ref s]|]; [|exact H].
    destruct (pty s); simpl; rewrite ?manager_emit; [|exact H].
    apply named_on_session; [reflexivity|]. now apply named_on_pty.
  - unfold deleteRoute.
    pose proof (named_deleteSession sid _ H) as H'.
    destruct (deleteSession sid (manager sv)) as [[r m] es].
    simpl. now rewrite manager_emit.
  - unfold ptyData, onData.
    destruct (ptys (manager sv) !! h); rewrite manager_emit; [|exact H].
    now apply named_on_session.
  - unfold ptyExit, onExit.
    destruct (ptys (manager sv) !! h); rewrite manager_emit; [|exact H].
    apply named_on_session; [reflexivity|]. now apply named_on_pty.
Qed.

Lemma named_reachable sv : reachable sv -> named (manager sv).
Proof.
  induction 1 as [|sv sv' Hr IH Hstep]; [apply named_empty|].
  exact (named_step _ _ Hstep (registry_wf_reachable _ Hr) IH).
Qed.

(** The process of a registered session captured the object and the id
    of that session. *)
Lemma process_of_session sv sid ref s h :
  reachable sv ->
  get sid (manager sv) = Some (ref, s) -> pty s = Some h ->
  exists p, ptys (manager sv) !! h = Some p
            /\ p_session p = ref /\ p_sessionId p = sid.
Proof.
  intros Hr Hg Hp. destruct (get_heap _ _ _ _ Hg) as [Hs Hh].
  destruct (proj1 (consistent_reachable sv Hr) ref s h Hh Hp)
    as (p & Hpty & Href).
  destruct (named_reachable sv Hr) as [N1 N2].
  destruct (N2 h p Hpty) as (s' & Hh' & Hid).
  exists p. repeat split; try assumption.
  rewrite Href, Hh in Hh'. injection Hh' as <-.
  rewrite <- Hid. eauto.
Qed.

Lemma forward_lookup sid msg sv ws :
  connections (forward sid msg sv) !! ws
  = (fun c => if bool_decide (ws ∈ subscribers sid sv)
              then ws_send msg c else c) <$> connections sv !! ws.
Proof.
  unfold forward, subscribers.
  destruct (sessionConnections sv !! sid) as [set|]; simpl.
  - apply list_lookup_imap.
  - destruct (connections sv !! ws) as [c|]; [|reflexivity]. simpl.
    rewrite bool_decide_eq_false_2; [reflexivity|apply not_elem_of_empty].
Qed.

(** ** Output and exit of a process *)

(** X17.  In a reachable state, output of the process of a registered
    session is appended to the log of that session as one [stdout] entry,
    nothing else of the session changes, and the output is sent once to
    each open socket in the subscriber set of that session and to no
    other socket. *)
Theorem output_is_logged_and_forwarded sv sid ref s h d :
  reachable sv ->
  get sid (manager sv) = Some (ref, s) ->
  pty s = Some h ->
  let sv' := ptyData h d sv in
  getSession sid (manager sv')
  = Some (push_log {| type := stdout; content := d |} s)
  /\ sessionConnections sv' = sessionConnections sv
  /\ forall ws,
       connections sv' !! ws
       = (fun c => if bool_decide (ws ∈ subscribers sid sv)
                   then ws_send (data_message d stdout) c else c)
         <$> connections sv !! ws.
Proof.
  intros Hr Hg Hp.
  destruct (process_of_session sv sid ref s h Hr Hg Hp)
    as (p & Hpty & Href & Hsid).
  destruct (get_heap _ _ _ _ Hg) as [Hs Hh].
  cbv zeta. unfold ptyData, onData. rewrite Hpty, Href, Hsid.
  cbn [emit fold_left listen].
  split; [|split].
  - unfold forward. destruct (sessionConnections _ !! sid);
      unfold getSession, get; cbn; rewrite Hs;
      now rewrite (lookup_alter_of _ _ ref ref s Hh), decide_True.
  - unfold forward. now destruct (sessionConnections _ !! sid).
  - intros ws. rewrite forward_lookup. reflexivity.
Qed.

Lemma output_is_logged_and_forwarded_witness :
  let sv' := ptyData 0 (js "out") subscribed_server in
  getSession s1 (manager sv')
  = Some (push_log {| type := stdout; content := js "out" |}
            {| id := s1; name := js "demo"; workingDir := js "/tmp";
               pty := Some 0%nat; status := running; logs := [] |})
  /\ sessionConnections sv' = sessionConnections subscribed_server
  /\ forall ws,
       connections sv' !! ws
       = (fun c => if bool_decide (ws ∈ subscribers s1 subscribed_server)
                   then ws_send (data_message (js "out") stdout) c else c)
         <$> connections subscribed_server !! ws.
Proof.
  apply (output_is_logged_and_forwarded subscribed_server s1 0%nat
           {| id := s1; name := js "demo"; workingDir := js "/tmp";
              pty := Some 0%nat; status := running; logs := [] |} 0%nat).
  - apply reachable_subscribed.
  - vm_compute. reflexivity.
  - reflexivity.
Defined.

(** X18.  In a reachable state, the exit of the process of a registered
    session sets the status of that session to [stopped], appends the
    system entry with the exit code to its log, keeps the process field
    as it was, marks the process as having reported, so that no further
    output or exit of it can follow, and sends the exit code once to each
    open socket in the subscriber set of that session. *)
Theorem exit_stops_the_session sv sid ref s h code :
  reachable sv ->
  get sid (manager sv) = Some (ref, s) ->
  pty s = Some h ->
  let sv' := ptyExit h code sv in
  getSession sid (manager sv')
  = Some {| id := id s; name := name s; workingDir := workingDir s;
            pty := Some h; status := stopped;
            logs := logs s
                    ++ [{| type := system;
                           content := js "Process exited with code "
                                      ++ numberToString code |}] |}
  /\ ~ unreported h (manager sv')
  /\ forall ws,
       connections sv' !! ws
       = (fun c => if bool_decide (ws ∈ subscribers sid sv)
                   then ws_send (exit_message code) c else c)
         <$> connections sv !! ws.
Proof.
  intros Hr Hg Hp.
  destruct (process_of_session sv sid ref s h Hr Hg Hp)
    as (p & Hpty & Href & Hsid).
  destruct (get_heap _ _ _ _ Hg) as [Hs Hh].
  cbv zeta. unfold ptyExit, onExit. rewrite Hpty, Href, Hsid.
  cbn [emit fold_left listen].
  assert (Hm : forall x, manager (forward sid (exit_message code) x)
                         = manager x)
    by (intros x; unfold forward; now destruct (sessionConnections x !! sid)).
  split; [|split].
  - rewrite Hm. unfold getSession, get. cbn. rewrite Hs.
    rewrite (lookup_alter_of _ _ ref ref s Hh), decide_True by reflexivity.
    unfold push_log, set_status. cbn. now rewrite Hp.
  - rewrite Hm. intros (p' & Hp' & Hex). cbn in Hp'.
    rewrite (lookup_alter_of _ _ h h p Hpty), decide_True in Hp'
      by reflexivity.
    injection Hp' as <-. discriminate Hex.
  - intros ws. rewrite forward_lookup. reflexivity.
Qed.

Lemma exit_stops_the_session_witness :
  let sv' := ptyExit 0 1 subscribed_server in
  getSession s1 (manager sv')
  = Some {| id := s1; name := js "demo"; workingDir := js "/tmp";
            pty := Some 0%nat; status := stopped;
            logs := []
                    ++ [{| type := system;
                           content := js "Process exited with code "
                                      ++ numberToString 1 |}] |}
  /\ ~ unreported 0 (manager sv')
  /\ forall ws,
       connections sv' !! ws
       = (fun c => if bool_decide (ws ∈ subscribers s1 subscribed_server)
                   then ws_send (exit_message 1) c else c)
         <$> connections subscribed_server !! ws.
Proof.
  apply (exit_stops_the_session subscribed_server s1 0%nat
           {| id := s1; name := js "demo"; workingDir := js "/tmp";
              pty := Some 0%nat; status := running; logs := [] |} 0%nat).
  - apply reachable_subscribed.
  - vm_compute. reflexivity.
  - reflexivity.
Defined.



(** ** What a socket receives *)

Lemma ws_send_grows msg c :
  sent c `prefix_of` sent (ws_send msg c)
  /\ subscribedSessionId (ws_send msg c) = subscribedSessionId c
  /\ readyState (ws_send msg c) = readyState c
  /\ (readyState c <> OPEN -> ws_send msg c = c).
Proof.
  unfold ws_send. destruct (decide (readyState c = OPEN)); simpl.
  - split; [now apply prefix_app_r|]. repeat split. contradiction.
  - repeat split; reflexivity.
Qed.

Lemma forward_connection sid msg sv ws c :
  connections sv !! ws = Some c ->
  exists c1, connections (forward sid msg sv) !! ws = Some c1
             /\ sent c `prefix_of` sent c1
             /\ subscribedSessionId c1 = subscribedSessionId c
             /\ readyState c1 = readyState c
             /\ (readyState c <> OPEN -> c1 = c).
Proof.
  intros Hc. rewrite forward_lookup, Hc. simpl.
  destruct (bool_decide (ws ∈ subscribers sid sv)).
  - exists (ws_send msg c). split; [reflexivity|apply ws_send_grows].
  - exists c. repeat split; reflexivity.
Qed.

(** through the listeners, a socket keeps its subscription and its
    state, what was sent to it stays sent, and a socket that is not open
    gets nothing *)
Lemma emit_connection es : forall sv ws c,
  connections sv !! ws = Some c ->
  exists c', connections (emit es sv) !! ws = Some c'
             /\ sent c `prefix_of` sent c'
             /\ subscribedSessionId c' = subscribedSessionId c
             /\ readyState c' = readyState c
             /\ (readyState c <> OPEN -> c' = c).
Proof.
  induction es as [|e es IH]; intros sv ws c Hc; simpl.
  - exists c. split; [exact Hc|]. repeat split; reflexivity.
  - assert (H : exists c1, connections (listen e sv) !! ws = Some c1
                           /\ sent c `prefix_of` sent c1
                           /\ subscribedSessionId c1 = subscribedSessionId c
                           /\ readyState c1 = readyState c
                           /\ (readyState c <> OPEN -> c1 = c)).
    { destruct e; simpl; try (now apply forward_connection);
        exists c; (split; [exact Hc|]); repeat split; reflexivity. }
    destruct H as (c1 & H1 & H2 & H3 & H4 & H5).
    destruct (IH _ _ _ H1) as (c' & K1 & K2 & K3 & K4 & K5).
    exists c'. repeat split; try congruence.
    + etransitivity; eassumption.
    + intros Hn. rewrite K5 by congruence. auto.
Qed.

(** a request to the manager or an event of a process, as seen by a
    socket *)
Lemma manager_step_connection es m sv ws c :
  connections sv !! ws = Some c ->
  exists c', connections (emit es (with_manager m sv)) !! ws = Some c'
             /\ sent c `prefix_of` sent c'
             /\ subscribedSessionId c' = subscribedSessionId c
             /\ readyState c' = readyState c
             /\ (readyState c <> OPEN -> c' = c).
Proof. intros Hc. now apply emit_connection. Qed.

(** X20.  Through any step of the server, what has been sent to a
    socket stays sent, in order, and more can only be added at the end;
    a socket that is not open is never written to again. *)
Theorem socket_output_is_append_only sv sv' ws c :
  step sv sv' ->
  connections sv !! ws = Some c ->
  exists c', connections sv' !! ws = Some c'
             /\ sent c `prefix_of` sent c'
             /\ (readyState c <> OPEN -> sent c' = sent c).
Proof.
  intros Hstep Hc.
  assert (Hweak : forall sv1,
            (exists c', connections sv1 !! ws = Some c'
                        /\ sent c `prefix_of` sent c'
                        /\ subscribedSessionId c' = subscribedSessionId c
                        /\ readyState c' = readyState c
                        /\ (readyState c <> OPEN -> c' = c)) ->
            exists c', connections sv1 !! ws = Some c'
                       /\ sent c `prefix_of` sent c'
                       /\ (readyState c <> OPEN -> sent c' = sent c)).
  { intros sv1 (c' & A & B & _ & _ & E). exists c'.
    repeat split; auto. intros Hn. now rewrite E. }
  assert (Hsame : exists c', connections sv !! ws = Some c'
                             /\ sent c `prefix_of` sent c'
                             /\ (readyState c <> OPEN -> sent c' = sent c))
    by (exists c; split; [exact Hc|split; reflexivity]).
  destruct Hstep.
  - exists c. split; [now apply lookup_app_l_Some|]. split; auto.
  - destruct H as (c0 & Hc0 & Hopen0).
    unfold onMessage. rewrite Hc0.
    destruct (decide (ws0 = ws)) as [->|Hne].
    + assert (c0 = c) by congruence. subst c0.
      pose proof (lookup_lt_Some _ _ _ Hc) as Hlt.
      destruct message; try exact Hsame; cbn [connections].
      * rewrite list_lookup_insert_eq by assumption. eexists.
        split; [reflexivity|]. split; [|congruence].
        unfold ws_send. cbn. destruct (decide (readyState c = OPEN));
          [now apply prefix_app_r|reflexivity].
      * destruct (subscribed c); exact Hsame.
      * destruct (subscribed c); exact Hsame.
      * destruct (subscribed c); [|exact Hsame]. cbn [connections].
        rewrite list_lookup_insert_eq by assumption. eexists.
        split; [reflexivity|]. split; [reflexivity|congruence].
    + destruct message; try exact Hsame; cbn [connections].
      * rewrite list_lookup_insert_ne by assumption. exact Hsame.
      * destruct (subscribed c0); exact Hsame.
      * destruct (subscribed c0); exact Hsame.
      * destruct (subscribed c0); [|exact Hsame]. cbn [connections].
        rewrite list_lookup_insert_ne by assumption. exact Hsame.
  - destruct H as (c0 & Hc0 & Hopen0).
    unfold onClose. rewrite Hc0. cbn [connections].
    destruct (decide (ws0 = ws)) as [->|Hne].
    + assert (c0 = c) by congruence. subst c0.
      rewrite list_lookup_insert_eq by (eapply lookup_lt_Some; eassumption).
      eexists. split; [reflexivity|]. split; reflexivity.
    + rewrite list_lookup_insert_ne by assumption. exact Hsame.
  - unfold postSession.
    destruct (createSession uuid name0 dir (manager sv)) as [[r m] es].
    now apply Hweak, manager_step_connection.
  - unfold postStart.
    destruct (startSession sid o (manager sv)) as [[r m] es].
    now apply Hweak, manager_step_connection.
  - unfold postStop.
    destruct (stopSession sid (manager sv)) as [[r m] es].
    now apply Hweak, manager_step_connection.
  - unfold deleteRoute.
    destruct (deleteSession sid (manager sv)) as [[r m] es].
    now apply Hweak, manager_step_connection.
  - unfold ptyData.
    destruct (onData h d (manager sv)) as [m es].
    now apply Hweak, manager_step_connection.
  - unfold ptyExit.
    destruct (onExit h exitCode (manager sv)) as [m es].
    now apply Hweak, manager_step_connection.
Qed.

Lemma socket_output_is_append_only_witness :
  exists c', connections (ptyData 0 (js "out") subscribed_server) !! 0%nat
             = Some c'
             /\ sent {| subscribedSessionId := Some s1; readyState := OPEN;
                        sent := [logs_message []] |}
                  `prefix_of` sent c'
             /\ (readyState {| subscribedSessionId := Some s1;
                               readyState := OPEN;
                               sent := [logs_message []] |} <> OPEN ->
                 sent c' = sent {| subscribedSessionId := Some s1;
                                   readyState := OPEN;
                                   sent := [logs_message []] |}).
Proof.
  apply (socket_output_is_append_only subscribed_server
           (ptyData 0 (js "out") subscribed_server) 0%nat).
  - apply step_data. eexists. split; [vm_compute; reflexivity|reflexivity].
  - vm_compute. reflexivity.
Defined.

(** ** Clients that subscribe once at a time *)

Lemma subscribed_Some c sid :
  subscribed c = Some sid -> subscribedSessionId c = Some sid.
Proof.
  unfold subscribed. destruct (subscribedSessionId c) as [x|]; [|discriminate].
  destruct (truthy x); [now intros [= ->]|discriminate].
Qed.

Lemma routed_quiet sv sv' :
  sessionConnections sv' = sessionConnections sv ->
  (forall ws c, connections sv !! ws = Some c ->
     exists c', connections sv' !! ws = Some c'
                /\ subscribedSessionId c' = subscribedSessionId c) ->
  routed sv -> routed sv'.
Proof.
  intros Ht Hc H sid ws Hin. unfold subscribers in Hin. rewrite Ht in Hin.
  destruct (H sid ws Hin) as (c & Hl & Hs).
  destruct (Hc ws c Hl) as (c' & Hl' & Hs'). exists c'. split; congruence.
Qed.

Lemma routed_manager_step es m sv :
  routed sv -> routed (emit es (with_manager m sv)).
Proof.
  apply routed_quiet.
  - now rewrite sessionConnections_emit.
  - intros ws c Hc.
    destruct (manager_step_connection es m sv ws c Hc)
      as (c' & A & _ & B & _). eauto.
Qed.

Lemma routed_remove sv ws c sid rs :
  connections sv !! ws = Some c ->
  subscribed c = Some sid ->
  routed sv ->
  routed {| manager := manager sv;
            sessionConnections :=
              remove_subscriber sid ws (sessionConnections sv);
            connections :=
              <[ws := {| subscribedSessionId := None; readyState := rs;
                         sent := sent c |}]> (connections sv) |}
  /\ routed {| manager := manager sv;
               sessionConnections :=
                 remove_subscriber sid ws (sessionConnections sv);
               connections :=
                 <[ws := {| subscribedSessionId := subscribedSessionId c;
                            readyState := rs; sent := sent c |}]>
                   (connections sv) |}.
Proof.
  intros Hc Hs%subscribed_Some H.
  assert (Hmem : forall sid' ws',
            ws' ∈ default ∅ (remove_subscriber sid ws (sessionConnections sv)
                              !! sid') ->
            ws' <> ws /\ ws' ∈ subscribers sid' sv).
  { intros sid' ws'. unfold remove_subscriber, subscribers.
    destruct (decide (sid = sid')) as [<-|Hne].
    - rewrite lookup_alter_eq.
      destruct (sessionConnections sv !! sid); simpl; set_solver.
    - rewrite lookup_alter_ne by assumption. intros Hin. split; [|exact Hin].
      intros ->. destruct (H sid' ws Hin) as (c' & Hc' & Hs'). congruence. }
  split; intros sid' ws' Hin; apply Hmem in Hin as [Hne Hin];
    destruct (H sid' ws' Hin) as (c' & Hc' & Hs'); exists c';
    (split; [|exact Hs']); cbn [connections];
    now rewrite list_lookup_insert_ne.
Qed.

Lemma routed_step sv sv' : step_polite sv sv' -> routed sv -> routed sv'.
Proof.
  intros Hstep H. destruct Hstep.
  - intros sid ws Hin. destruct (H sid ws Hin) as (c & Hc & Hs).
    exists c. split; [now apply lookup_app_l_Some|exact Hs].
  - destruct H0 as (c0 & Hc0 & Hopen0).
    unfold onMessage. rewrite Hc0.
    destruct message; try exact H.
    + destruct H1 as (Htruthy & c1 & Hc1 & Hnone).
      assert (c1 = c0) by congruence. subst c1.
      pose proof (lookup_lt_Some _ _ _ Hc0) as Hlt.
      intros sid ws' Hin. unfold subscribers in Hin. cbn in Hin.
      assert (Hcase : ws' = ws /\ sid = sessionId
                      \/ ws' ∈ subscribers sid sv).
      { unfold subscribers.
        destruct (decide (sessionId = sid)) as [<-|Hne].
        - destruct (sessionConnections sv !! sessionId) as [set|];
            rewrite lookup_insert_eq in Hin; simpl in *; set_solver.
        - destruct (sessionConnections sv !! sessionId) as [set|];
            rewrite lookup_insert_ne in Hin by assumption; auto. }
      cbn [connections].
      destruct Hcase as [[-> ->]|Hold].
      * rewrite list_lookup_insert_eq by assumption. eexists.
        split; [reflexivity|]. unfold ws_send. cbn.
        now destruct (decide (readyState c0 = OPEN)).
      * destruct (H sid ws' Hold) as (c & Hc & Hs).
        destruct (decide (ws = ws')) as [->|Hne]; [congruence|].
        rewrite list_lookup_insert_ne by assumption. eauto.
    + destruct (subscribed c0); exact H.
    + destruct (subscribed c0); exact H.
    + destruct (subscribed c0) as [sid|] eqn:E; [|exact H].
      exact (proj1 (routed_remove sv ws c0 sid (readyState c0) Hc0 E H)).
  - destruct H0 as (c0 & Hc0 & Hopen0).
    unfold onClose. rewrite Hc0.
    destruct (subscribed c0) as [sid|] eqn:E.
    + exact (proj2 (routed_remove sv ws c0 sid CLOSED Hc0 E H)).
    + intros sid ws' Hin. destruct (H sid ws' Hin) as (c & Hc & Hs).
      cbn [connections]. destruct (decide (ws = ws')) as [->|Hne].
      * rewrite list_lookup_insert_eq by (eapply lookup_lt_Some; eassumption).
        eexists. split; [reflexivity|]. simpl. congruence.
      * rewrite list_lookup_insert_ne by assumption. eauto.
  - unfold postSession.
    destruct (createSession uuid name0 dir (manager sv)) as [[r m] es].
    now apply routed_manager_step.
  - unfold postStart.
    destruct (startSession sid o (manager sv)) as [[r m] es].
    now apply routed_manager_step.
  - unfold postStop.
    destruct (stopSession sid (manager sv)) as [[r m] es].
    now apply routed_manager_step.
  - unfold deleteRoute.
    destruct (deleteSession sid (manager sv)) as [[r m] es].
    now apply routed_manager_step.
  - unfold ptyData.
    destruct (onData h d (manager sv)) as [m es].
    now apply routed_manager_step.
  - unfold ptyExit.
    destruct (onExit h exitCode (manager sv)) as [m es].
    now apply routed_manager_step.
Qed.

(** X21.  When every socket subscribes only while it has no
    subscription, and for a non-empty id, as the client of this
    repository does, then in every reachable state a socket that is in
    the subscriber set of a session has that session as its current
    subscription, so it is in the set of at most one session. *)
Theorem polite_clients_have_one_subscription sv :
  reachable_polite sv ->
  routed sv
  /\ forall ws sid sid',
       ws ∈ subscribers sid sv -> ws ∈ subscribers sid' sv -> sid = sid'.
Proof.
  intros Hr.
  assert (H : routed sv).
  { induction Hr as [|sv sv' _ IH Hstep].
    - intros sid ws Hin. unfold subscribers in Hin. simpl in Hin.
      rewrite lookup_empty in Hin. simpl in Hin.
      now apply not_elem_of_empty in Hin.
    - exact (routed_step _ _ Hstep IH). }
  split; [exact H|].
  intros ws sid sid' H1 H2.
  destruct (H sid ws H1) as (c & Hc & Hs).
  destruct (H sid' ws H2) as (c' & Hc' & Hs'). congruence.
Qed.

Lemma reachable_polite_subscribed : reachable_polite subscribed_server.
Proof.
  eapply reachable_polite_step.
  - eapply reachable_polite_step; [|apply polite_connection].
    eapply reachable_polite_step; [|apply polite_start].
    eapply reachable_polite_step;
      [apply reachable_polite_initial|apply polite_create].
  - apply polite_message; [apply connected_0_fresh|].
    split; [reflexivity|]. eexists. split; [vm_compute; reflexivity|].
    reflexivity.
Qed.

Lemma polite_clients_have_one_subscription_witness :
  routed subscribed_server
  /\ forall ws sid sid',
       ws ∈ subscribers sid subscribed_server ->
       ws ∈ subscribers sid' subscribed_server -> sid = sid'.
Proof.
  apply (polite_clients_have_one_subscription subscribed_server).
  apply reachable_polite_subscribed.
Defined.

(** ** Subscribing, and sending input *)

Lemma getLogs_length sid l m :
  (0 < l)%Z -> (length (getLogs sid (Some l) m) <= Z.to_nat l)%nat.
Proof.
  intros Hl. unfold getLogs, slice_from.
  destruct (get sid m) as [[ref s]|]; [|simpl; lia].
  destruct (Z.eqb_spec l 0); [lia|].
  destruct (Z.ltb_spec (- l) 0); [|lia].
  rewrite length_drop. lia.
Qed.

(** X22.  A [subscribe] from an open socket puts the socket in the
    subscriber set of the session, makes that session its current
    subscription, and sends it at once one [logs] message with at most
    the 100 most recent log entries of the session, none if the session
    is unknown; the manager is untouched. *)
Theorem subscribe_replays_recent_logs sv ws c sid :
  connections sv !! ws = Some c ->
  readyState c = OPEN ->
  let sv' := onMessage ws (subscribe sid) sv in
  let entries := getLogs sid (Some 100%Z) (manager sv) in
  ws ∈ subscribers sid sv'
  /\ connections sv' !! ws
     = Some {| subscribedSessionId := Some sid; readyState := OPEN;
               sent := sent c ++ [logs_message entries] |}
  /\ (length entries <= 100)%nat
  /\ (getSession sid (manager sv) = None -> entries = [])
  /\ manager sv' = manager sv.
Proof.
  intros Hc Hopen. cbv zeta. unfold onMessage. rewrite Hc.
  split; [|split; [|split; [|split]]].
  - unfold subscribers. cbn.
    destruct (sessionConnections sv !! sid);
      rewrite lookup_insert_eq; simpl; set_solver.
  - cbn [connections].
    rewrite list_lookup_insert_eq by (eapply lookup_lt_Some; eassumption).
    unfold ws_send. cbn. rewrite Hopen.
    destruct (decide (OPEN = OPEN)); [reflexivity|contradiction].
  - apply (getLogs_length sid 100 (manager sv)). lia.
  - unfold getSession, getLogs. now destruct (get sid (manager sv)).
  - reflexivity.
Qed.

Lemma subscribe_replays_recent_logs_witness :
  let sv := onConnection started_server in
  let sv' := onMessage 0 (subscribe s1) sv in
  let entries := getLogs s1 (Some 100%Z) (manager sv) in
  0%nat ∈ subscribers s1 sv'
  /\ connections sv' !! 0%nat
     = Some {| subscribedSessionId := Some s1; readyState := OPEN;
               sent := sent {| subscribedSessionId := None;
                               readyState := OPEN; sent := [] |}
                       ++ [logs_message entries] |}
  /\ (length entries <= 100)%nat
  /\ (getSession s1 (manager sv) = None -> entries = [])
  /\ manager sv' = manager sv.
Proof.
  apply (subscribe_replays_recent_logs (onConnection started_server) 0%nat
           {| subscribedSessionId := None; readyState := OPEN; sent := [] |}
           s1).
  - vm_compute. reflexivity.
  - reflexivity.
Defined.

(** X23.  Input from a socket reaches the process of the session the
    socket is subscribed to, and only that process: the bytes are
    appended to what was written to it, and the registry, the session
    objects, the routing table and the sockets are as they were. *)
Theorem input_reaches_subscribed_process sv ws c sid ref s h p d :
  connections sv !! ws = Some c ->
  subscribed c = Some sid ->
  get sid (manager sv) = Some (ref, s) ->
  pty s = Some h ->
  ptys (manager sv) !! h = Some p ->
  let sv' := onMessage ws (input d) sv in
  ptys (manager sv') !! h = Some (pty_write d p)
  /\ (forall h', h' <> h ->
        ptys (manager sv') !! h' = ptys (manager sv) !! h')
  /\ sessions (manager sv') = sessions (manager sv)
  /\ heap (manager sv') = heap (manager sv)
  /\ sessionConnections sv' = sessionConnections sv
  /\ connections sv' = connections sv.
Proof.
  intros Hc Hs Hg Hp Hpty. cbv zeta. unfold onMessage. rewrite Hc, Hs.
  unfold sendInput. rewrite Hg, Hp. cbn.
  split; [now rewrite (lookup_alter_of _ _ h h p Hpty), decide_True|].
  split; [|repeat split].
  intros h' Hne. now rewrite list_lookup_alter_ne.
Qed.

Lemma input_reaches_subscribed_process_witness :
  let sv' := onMessage 0 (input (js "ls")) subscribed_server in
  ptys (manager sv') !! 0%nat
  = Some (pty_write (js "ls")
            {| p_cwd := js "/tmp"; p_size := (120, 40); p_written := [];
               p_killed := false; p_exited := false; p_session := 0;
               p_sessionId := s1 |})
  /\ (forall h', h' <> 0%nat ->
        ptys (manager sv') !! h' = ptys (manager subscribed_server) !! h')
  /\ sessions (manager sv') = sessions (manager subscribed_server)
  /\ heap (manager sv') = heap (manager subscribed_server)
  /\ sessionConnections sv' = sessionConnections subscribed_server
  /\ connections sv' = connections subscribed_server.
Proof.
  apply (input_reaches_subscribed_process subscribed_server 0%nat
           {| subscribedSessionId := Some s1; readyState := OPEN;
              sent := [logs_message []] |} s1 0%nat
           {| id := s1; name := js "demo"; workingDir := js "/tmp";
              pty := Some 0%nat; status := running; logs := [] |} 0%nat);
    vm_compute; reflexivity.
Defined.

(** A socket without a subscription cannot reach any process or change
    anything: its [input], [resize] and [unsubscribe] messages leave the
    server as it was. *)
Theorem unsubscribed_socket_is_ignored sv ws c :
  connections sv !! ws = Some c ->
  subscribed c = None ->
  (forall d, onMessage ws (input d) sv = sv)
  /\ (forall cols rows, onMessage ws (resize cols rows) sv = sv)
  /\ onMessage ws unsubscribe sv = sv.
Proof.
  intros Hc Hs. unfold onMessage. rewrite Hc, Hs. repeat split.
Qed.

Lemma unsubscribed_socket_is_ignored_witness :
  (forall d, onMessage 0 (input d) (onConnection started_server)
             = onConnection started_server)
  /\ (forall cols rows,
        onMessage 0 (resize cols rows) (onConnection started_server)
        = onConnection started_server)
  /\ onMessage 0 unsubscribe (onConnection started_server)
     = onConnection started_server.
Proof.
  apply (unsubscribed_socket_is_ignored (onConnection started_server) 0%nat
           {| subscribedSessionId := None; readyState := OPEN; sent := [] |});
    vm_compute; reflexivity.
Defined.

End BackendExtras.
